(** * visualize_schedule.py: the trace parser and the renderer's guard

    A shallow embedding of [gantt_diagram/visualize_schedule.py].

    Conventions of the model.
    - A Python [str] is a list of characters; a character is a code point
      below 256 (Rocq's [ascii]).  On that range [\d] is [0-9] and [\s] is
      the set spelled out in [is_space].
    - A Python [int] is a [Z]; a [dict] keyed by integers is a [gmap Z _];
      a [set] of integers is a [gset Z]; a [float] is a binary64 number,
      a [spec_float] with the correctly rounded operations of the
      Standard Library.
    - Operations that can raise in Python ([int(..)] and [str(..)] beyond
      the interpreter's limit of 4300 digits, the conversion of a large
      integer to a float, [d[k]], [min] and [max] of an empty list, reading
      a local that was never assigned) return in the error type [res].
    - The calls to the plotting library are recorded in order; whether a
      call raises is decided by a parameter [lib], a function of the calls
      made before and of the call itself.
    - [parse_output] takes the text of the file, as [f.read()] would
      return it; opening the file is outside the model. *)

From Stdlib Require Import ZArith Ascii String DecimalString SpecFloat.
From stdpp Require Import base tactics option list sorting strings gmap sets.

Local Open Scope Z_scope.

(** ** Exceptions *)

Inductive exn : Type :=
| KeyError
| ValueError
| UnboundLocalError
| OverflowError
| Foreign (name : string).    (* raised inside the plotting library *)

Inductive res (A : Type) : Type :=
| Ok (a : A)
| Raise (e : exn).

Arguments Ok {A} a.
Arguments Raise {A} e.

Definition res_bind {A B} (c : res A) (k : A → res B) : res B :=
  match c with
  | Ok a => k a
  | Raise e => Raise e
  end.

Notation "x <~ c ;; k" := (res_bind c (fun x => k))
  (at level 100, c at next level, right associativity).

(** ** Characters and the regular expressions of the parser *)

Module Re.

(** [\d] on code points below 256. *)
Definition is_digit (c : ascii) : bool :=
  let n := nat_of_ascii c in (48 <=? n)%nat && (n <=? 57)%nat.

(** [\s] on code points below 256: tab, LF, VT, FF, CR, the four
    separators 0x1c-0x1f, space, NEL (0x85) and NBSP (0xa0). *)
Definition is_space (c : ascii) : bool :=
  let n := nat_of_ascii c in
  ((9 <=? n)%nat && (n <=? 13)%nat)
  || ((28 <=? n)%nat && (n <=? 32)%nat)
  || (n =? 133)%nat || (n =? 160)%nat.

Inductive atom : Type :=
| Lit (c : ascii)      (* a literal character *)
| Digit                (* \d *)
| Space.               (* \s *)

Inductive quant : Type :=
| One                  (* no quantifier *)
| Star                 (* *  greedy *)
| Plus.                (* +  greedy *)

(** One piece of a pattern; [capture] marks the parenthesised group. *)
Record item : Type := Item { it_atom : atom; it_quant : quant; capture : bool }.

Definition pattern : Type := list item.

Definition atom_matches (a : atom) (c : ascii) : bool :=
  match a with
  | Lit c' => if ascii_dec c' c then true else false
  | Digit => is_digit c
  | Space => is_space c
  end.

(** Length of the longest prefix of [s] made of characters of [a]. *)
Fixpoint run_length (a : atom) (s : list ascii) : nat :=
  match s with
  | c :: s' => if atom_matches a c then S (run_length a s') else 0%nat
  | [] => 0%nat
  end.

(** Greedy repetition with backtracking: try [n] repetitions, then
    [n-1], ... down to [lo]. *)
Fixpoint try_counts {R} (k : nat → option R) (lo n : nat) : option R :=
  match k n with
  | Some r => Some r
  | None =>
      match n with
      | O => None
      | S n' => if (n <=? lo)%nat then None else try_counts k lo n'
      end
  end.

(** [match_here p s g]: the pattern matches a prefix of [s]; the result
    is the text of group 1 ([g] is the group seen so far). *)
Fixpoint match_here (p : pattern) (s : list ascii) (g : list ascii)
  : option (list ascii) :=
  match p with
  | [] => Some g
  | Item a One cap :: p' =>
      match s with
      | c :: s' =>
          if atom_matches a c
          then match_here p' s' (if cap then [c] else g)
          else None
      | [] => None
      end
  | Item a q cap :: p' =>
      let lo := match q with Plus => 1%nat | _ => 0%nat end in
      let hi := run_length a s in
      if (hi <? lo)%nat then None
      else try_counts
             (fun n => match_here p' (drop n s) (if cap then take n s else g))
             lo hi
  end.

(** [pattern.search(line)]: the leftmost start position that matches. *)
Fixpoint search (p : pattern) (s : list ascii) : option (list ascii) :=
  match match_here p s [] with
  | Some g => Some g
  | None =>
      match s with
      | [] => None
      | _ :: s' => search p s'
      end
  end.

Definition lit (s : string) : pattern :=
  (fun c => Item (Lit c) One false) <$> list_ascii_of_string s.

(** [r'\*+ TIME: (\d+) \*+'] *)
Definition time_pattern : pattern :=
  [Item (Lit "*") Plus false] ++ lit " TIME: " ++ [Item Digit Plus true]
    ++ lit " " ++ [Item (Lit "*") Plus false].

(** [r'\s*running pid:\s*(\d+)'] *)
Definition running_pattern : pattern :=
  [Item Space Star false] ++ lit "running pid:" ++ [Item Space Star false]
    ++ [Item Digit Plus true].

(** [r'\s*waiting pid:\s*(\d+)'] *)
Definition waiting_pattern : pattern :=
  [Item Space Star false] ++ lit "waiting pid:" ++ [Item Space Star false]
    ++ [Item Digit Plus true].

(** [r'\s*ready pid:\s*(\d+)'] *)
Definition ready_pattern : pattern :=
  [Item Space Star false] ++ lit "ready pid:" ++ [Item Space Star false]
    ++ [Item Digit Plus true].

End Re.

(** ** [int(..)] on the text of a group *)

Definition digit_value (c : ascii) : Z := Z.of_nat (nat_of_ascii c) - 48.

(** [sys.get_int_max_str_digits()], the interpreter's default limit on
    the number of digits in a conversion between [int] and [str]. *)
Definition int_max_str_digits : nat := 4300.

(** [int(s)] for a non-empty run of decimal digits: a [ValueError] beyond
    the limit of digits (leading zeros count), the number otherwise.  Every
    other string is a [ValueError] here (the forms with blanks, sign or
    underscores that Python also accepts are never captured by [\d+]). *)
Definition int (s : list ascii) : res Z :=
  match s with
  | [] => Raise ValueError
  | _ =>
      if forallb Re.is_digit s
      then
        if (int_max_str_digits <? length s)%nat then Raise ValueError
        else Ok (foldl (fun acc c => 10 * acc + digit_value c) 0 s)
      else Raise ValueError
  end.

(** ** The data model *)

(** The dictionary [data] built by [parse_output]; its six fixed keys are
    the fields.  [cpu] and [io] map a PID to the ticks recorded for it,
    [ready] maps a tick to a queue of PIDs. *)
Record Data : Type := mkData {
  cpu : gmap Z (list Z);
  io : gmap Z (list Z);
  ready : gmap Z (list Z);
  events : gmap Z (list string);
  max_time : Z;
  pids : gset Z
}.

(** The local variables of [parse_output] that the loop reads and writes.
    [pid] is unbound until a line assigns it. *)
Record Locals : Type := mkLocals {
  data : Data;
  current_time : Z;
  current_running : Z;
  current_waiting : list Z;
  current_ready : list Z;
  pid : option Z
}.

Definition set_cpu (d : Data) (m : gmap Z (list Z)) : Data :=
  mkData m (io d) (ready d) (events d) (max_time d) (pids d).
Definition set_io (d : Data) (m : gmap Z (list Z)) : Data :=
  mkData (cpu d) m (ready d) (events d) (max_time d) (pids d).
Definition set_ready (d : Data) (m : gmap Z (list Z)) : Data :=
  mkData (cpu d) (io d) m (events d) (max_time d) (pids d).
Definition set_max_time (d : Data) (t : Z) : Data :=
  mkData (cpu d) (io d) (ready d) (events d) t (pids d).
Definition add_pid (d : Data) (p : Z) : Data :=
  mkData (cpu d) (io d) (ready d) (events d) (max_time d) ({[p]} ∪ pids d).

(** [d[k]] *)
Definition getitem {V} (d : gmap Z V) (k : Z) : res V :=
  match d !! k with
  | Some v => Ok v
  | None => Raise KeyError
  end.

(** Reading a local variable. *)
Definition read_local {A} (v : option A) : res A :=
  match v with
  | Some a => Ok a
  | None => Raise UnboundLocalError
  end.

(** [if k not in d: d[k] = []] *)
Definition setdefault_nil (d : gmap Z (list Z)) (k : Z) : gmap Z (list Z) :=
  match d !! k with
  | Some _ => d
  | None => <[k := []]> d
  end.

(** [d[k].append(x)] *)
Definition append_at (d : gmap Z (list Z)) (k x : Z) : res (gmap Z (list Z)) :=
  l <~ getitem d k ;;
  Ok (<[k := l ++ [x]]> d).

(** ** [parse_output] *)

Definition newline : ascii := ascii_of_nat 10.

(** [f.readlines()]: the text cut after every newline, which stays at the
    end of its line. *)
Fixpoint readlines (s : list ascii) : list (list ascii) :=
  match s with
  | [] => []
  | c :: s' =>
      if ascii_dec c newline then [c] :: readlines s'
      else match readlines s' with
           | [] => [[c]]
           | l :: ls => (c :: l) :: ls
           end
  end.

(** The state before the loop (source lines 7-30). *)
Definition init : Locals :=
  mkLocals (mkData ∅ ∅ ∅ ∅ 0 ∅) 0 (-1) [] [] None.

(** The block after the four [continue]-terminated branches (source
    lines 85-88); it reads [ready_match], [current_time] and [pid]. *)
Definition trailing_block (ready_match : option (list ascii)) (st : Locals)
  : res Locals :=
  match ready_match with
  | Some _ =>
      let d := data st in
      let r1 := setdefault_nil (ready d) (current_time st) in
      p <~ read_local (pid st) ;;
      q <~ getitem r1 (current_time st) ;;
      if bool_decide (p ∈ q)
      then Ok (mkLocals (set_ready d r1) (current_time st) (current_running st)
                 (current_waiting st) (current_ready st) (pid st))
      else
        r2 <~ append_at r1 (current_time st) p ;;
        Ok (mkLocals (set_ready d r2) (current_time st) (current_running st)
              (current_waiting st) (current_ready st) (pid st))
  | None => Ok st
  end.

(** One iteration of [for line in lines] (source lines 33-88). *)
Definition loop_body (st : Locals) (line : list ascii) : res Locals :=
  let time_match := Re.search Re.time_pattern line in
  match time_match with
  | Some g =>
      t <~ int g ;;
      let d := set_max_time (data st) (Z.max (max_time (data st)) t) in
      Ok (mkLocals d t (-1) [] [] (pid st))
  | None =>
  let run_match := Re.search Re.running_pattern line in
  match run_match with
  | Some g =>
      p <~ int g ;;
      if bool_decide (p ≠ -1) then
        let d1 := add_pid (data st) p in
        let c1 := setdefault_nil (cpu d1) p in
        c2 <~ append_at c1 p (current_time st) ;;
        Ok (mkLocals (set_cpu d1 c2) (current_time st) p
              (current_waiting st) (current_ready st) (Some p))
      else
        Ok (mkLocals (data st) (current_time st) (current_running st)
              (current_waiting st) (current_ready st) (Some p))
  | None =>
  let wait_match := Re.search Re.waiting_pattern line in
  match wait_match with
  | Some g =>
      p <~ int g ;;
      let d1 := add_pid (data st) p in
      let i1 := setdefault_nil (io d1) p in
      i2 <~ append_at i1 p (current_time st) ;;
      Ok (mkLocals (set_io d1 i2) (current_time st) (current_running st)
            (current_waiting st ++ [p]) (current_ready st) (Some p))
  | None =>
  let ready_match := Re.search Re.ready_pattern line in
  match ready_match with
  | Some g =>
      p <~ int g ;;
      Ok (mkLocals (add_pid (data st) p) (current_time st) (current_running st)
            (current_waiting st) (current_ready st ++ [p]) (Some p))
  | None => trailing_block ready_match st
  end end end end.

(** The loop: stops at the first exception. *)
Fixpoint run_lines (st : Locals) (lines : list (list ascii)) : res Locals :=
  match lines with
  | [] => Ok st
  | line :: rest => st' <~ loop_body st line ;; run_lines st' rest
  end.

(** [parse_output], on the text of the file. *)
Definition parse_output (text : string) : res Data :=
  st <~ run_lines init (readlines (list_ascii_of_string text)) ;;
  Ok (data st).

(** ** The loop body as a transition function

    Every line falls in one of five classes, and the body of the loop is
    a total function of the class and the state ([loop_body_apply]). *)

Inductive parsed_line : Type :=
| TickMarker (t : Z)
| Running (p : Z)
| Waiting (p : Z)
| Ready (p : Z)
| Unrecognized.

Definition int_or {A} (g : list ascii) (k : Z → A) (dflt : A) : A :=
  match int g with
  | Ok z => k z
  | Raise _ => dflt
  end.

(** The class of a line: the patterns in the order the loop tries them. *)
Definition classify (line : list ascii) : parsed_line :=
  match Re.search Re.time_pattern line with
  | Some g => int_or g TickMarker Unrecognized
  | None =>
  match Re.search Re.running_pattern line with
  | Some g => int_or g Running Unrecognized
  | None =>
  match Re.search Re.waiting_pattern line with
  | Some g => int_or g Waiting Unrecognized
  | None =>
  match Re.search Re.ready_pattern line with
  | Some g => int_or g Ready Unrecognized
  | None => Unrecognized
  end end end end.

(** [d[k]] after [if k not in d: d[k] = []; d[k].append(x)]. *)
Definition appended (d : gmap Z (list Z)) (k x : Z) : gmap Z (list Z) :=
  <[k := default [] (d !! k) ++ [x]]> d.

Definition apply_line (e : parsed_line) (st : Locals) : Locals :=
  match e with
  | TickMarker t =>
      mkLocals (set_max_time (data st) (Z.max (max_time (data st)) t))
        t (-1) [] [] (pid st)
  | Running p =>
      if bool_decide (p ≠ -1) then
        mkLocals (set_cpu (add_pid (data st) p)
                    (appended (cpu (data st)) p (current_time st)))
          (current_time st) p (current_waiting st) (current_ready st) (Some p)
      else
        mkLocals (data st) (current_time st) (current_running st)
          (current_waiting st) (current_ready st) (Some p)
  | Waiting p =>
      mkLocals (set_io (add_pid (data st) p)
                  (appended (io (data st)) p (current_time st)))
        (current_time st) (current_running st)
        (current_waiting st ++ [p]) (current_ready st) (Some p)
  | Ready p =>
      mkLocals (add_pid (data st) p) (current_time st) (current_running st)
        (current_waiting st) (current_ready st ++ [p]) (Some p)
  | Unrecognized => st
  end.

Definition nonneg_line (e : parsed_line) : Prop :=
  match e with
  | TickMarker z | Running z | Waiting z | Ready z => 0 ≤ z
  | Unrecognized => True
  end.

(** The whole loop as a left fold of the transition function. *)
Definition fold_lines (st : Locals) (lines : list (list ascii)) : Locals :=
  foldl (fun s l => apply_line (classify l) s) st lines.

(** A line that none of the four patterns matches. *)
Definition unrecognized (line : list ascii) : bool :=
  match Re.search Re.time_pattern line, Re.search Re.running_pattern line,
        Re.search Re.waiting_pattern line, Re.search Re.ready_pattern line with
  | None, None, None, None => true
  | _, _, _, _ => false
  end.

(** ** Lines on which [int] raises *)

(** The group handed to [int(..)]: that of the first pattern, in the order
    of the loop, that the line matches. *)
Definition selected_group (line : list ascii) : option (list ascii) :=
  match Re.search Re.time_pattern line with
  | Some g => Some g
  | None =>
  match Re.search Re.running_pattern line with
  | Some g => Some g
  | None =>
  match Re.search Re.waiting_pattern line with
  | Some g => Some g
  | None => Re.search Re.ready_pattern line
  end end end.

(** The number on the line has more digits than [int] accepts. *)
Definition oversized (line : list ascii) : bool :=
  match selected_group line with
  | Some g => (int_max_str_digits <? length g)%nat
  | None => false
  end.

(** No line of the log is oversized. *)
Definition within_limit (lines : list (list ascii)) : bool :=
  forallb (fun l => negb (oversized l)) lines.

(** The lines of a text. *)
Definition lines_of (text : string) : list (list ascii) :=
  readlines (list_ascii_of_string text).

(** ** The invariant of the loop *)

Record Inv (st : Locals) : Prop := mkInv {
  inv_ready : ready (data st) = ∅;
  inv_events : events (data st) = ∅;
  inv_cpu_pids : ∀ p, is_Some (cpu (data st) !! p) → p ∈ pids (data st);
  inv_io_pids : ∀ p, is_Some (io (data st) !! p) → p ∈ pids (data st);
  inv_pids_nonneg : ∀ p, p ∈ pids (data st) → 0 ≤ p;
  inv_time : 0 ≤ current_time st ≤ max_time (data st);
  inv_cpu_ticks : ∀ p l t,
    cpu (data st) !! p = Some l → t ∈ l → 0 ≤ t ≤ max_time (data st);
  inv_io_ticks : ∀ p l t,
    io (data st) !! p = Some l → t ∈ l → 0 ≤ t ≤ max_time (data st)
}.

(** ** The ticks announced by the marker lines *)

(** The tick a line announces, when [time_pattern] finds a marker in it. *)
Definition announced (line : list ascii) : option Z :=
  match Re.search Re.time_pattern line with
  | Some g =>
      match int g with
      | Ok t => Some t
      | Raise _ => None
      end
  | None => None
  end.

Definition announced_ticks (lines : list (list ascii)) : list Z :=
  omap announced lines.

(** The maximum of 0 and the elements of a list. *)
Definition max_of (l : list Z) : Z := foldr Z.max 0 l.

(** ** What a pattern can capture *)

(** A non-empty run of decimal digits. *)
Definition digits (g : list ascii) : Prop :=
  g ≠ [] ∧ forallb Re.is_digit g = true.

(** The only capturing piece of the parser's patterns is [(\d+)]. *)
Definition ok_item (it : Re.item) : bool :=
  match it with
  | Re.Item _ _ false => true
  | Re.Item Re.Digit Re.Plus true => true
  | _ => false
  end.

(** ** Sample logs *)

(** Each line followed by a newline, as in a log file. *)
Definition unlines (ls : list string) : string :=
  foldr (fun l acc => String.append l (String newline acc)) EmptyString ls.

Definition scenario_A : string :=
  unlines ["***** TIME: 0 *****"; "running pid: 1"; "ready pid: 2";
           "***** TIME: 1 *****"; "running pid: 2"; "waiting pid: 1";
           "ready pid: 1"]%string.

(** Only lines that no pattern matches. *)
Definition scenario_B : string :=
  unlines ["scheduler started"; "pid 3 is running"; "  "]%string.

(** The same PID announced ready twice in one tick-block. *)
Definition duplicate_ready_log : string :=
  unlines ["***** TIME: 0 *****"; "ready pid: 2"; "ready pid: 2"]%string.

(** Events before any tick marker. *)
Definition pre_marker_log : string :=
  unlines ["running pid: 1"; "waiting pid: 2"; "ready pid: 3"]%string.

(** A single ready-announcement before any tick marker. *)
Definition pre_marker_ready_log : string :=
  unlines ["ready pid: 3"]%string.

(** Tick 5 announced by two markers. *)
Definition repeated_marker_log : string :=
  unlines ["***** TIME: 5 *****"; "running pid: 1"; "waiting pid: 2";
           "***** TIME: 5 *****"; "running pid: 1"; "waiting pid: 2"]%string.

(** Tick 5 announced by two markers, a ready-announcement in each
    block. *)
Definition repeated_marker_ready_log : string :=
  unlines ["***** TIME: 5 *****"; "ready pid: 3";
           "***** TIME: 5 *****"; "ready pid: 4"]%string.

(** A running-announcement whose number has 4301 digits. *)
Definition oversized_line : list ascii :=
  list_ascii_of_string "running pid: " ++ replicate 4301 "1"%char ++ [newline].

Definition oversized_log : string := string_of_list_ascii oversized_line.

(** The destination hard-coded in the script. *)
Definition output_path : string := "gantt_diagram/schedule.png".

(** A line given as a string literal. *)
Definition line_of (s : string) : list ascii := list_ascii_of_string s.

(** ** Events and the tick they belong to *)

(** The PID a line announces, in any of the three roles. *)
Definition event_pid (e : parsed_line) : option Z :=
  match e with
  | Running p | Waiting p | Ready p => Some p
  | TickMarker _ | Unrecognized => None
  end.

(** The PIDs announced by the lines of a log, in order. *)
Definition event_pids (lines : list (list ascii)) : list Z :=
  omap (fun l => event_pid (classify l)) lines.

(** Each event line of a log paired with the tick in force when the loop
    reaches it: the tick of the last marker line before it, [t] when there
    is none. *)
Fixpoint attributed (t : Z) (lines : list (list ascii))
  : list (Z * parsed_line) :=
  match lines with
  | [] => []
  | l :: ls =>
      match classify l with
      | TickMarker t' => attributed t' ls
      | Unrecognized => attributed t ls
      | e => (t, e) :: attributed t ls
      end
  end.

(** The ticks of the running-announcements of [p], in order. *)
Definition running_ticks (p : Z) (evs : list (Z * parsed_line)) : list Z :=
  omap (fun te => match snd te with
                  | Running q => if bool_decide (q = p) then Some (fst te) else None
                  | _ => None
                  end) evs.

(** The ticks of the waiting-announcements of [p], in order. *)
Definition waiting_ticks (p : Z) (evs : list (Z * parsed_line)) : list Z :=
  omap (fun te => match snd te with
                  | Waiting q => if bool_decide (q = p) then Some (fst te) else None
                  | _ => None
                  end) evs.

(** What a map records for a key, the empty list when the key is absent. *)
Definition recorded (m : gmap Z (list Z)) (k : Z) : list Z :=
  default [] (m !! k).

(** A literal that a match has to consume at least once. *)
Definition requires (c : ascii) (p : Re.pattern) : Prop :=
  Re.Item (Re.Lit c) Re.One false ∈ p ∨ Re.Item (Re.Lit c) Re.Plus false ∈ p.

(** ** Well-formed lines *)

(** A run of [k] stars. *)
Definition stars (k : nat) : list ascii := replicate k "*"%char.

(** Only characters of [\s]. *)
Definition blanks (ws : list ascii) : Prop := forallb Re.is_space ws = true.

(** [rest] does not start with a character of [a]. *)
Definition stops (a : Re.atom) (rest : list ascii) : Prop :=
  match rest with
  | [] => True
  | c :: _ => Re.atom_matches a c = false
  end.

(** The pieces of one-character literals that [Re.lit] makes. *)
Definition lits (cs : list ascii) : Re.pattern :=
  (fun c => Re.Item (Re.Lit c) Re.One false) <$> cs.

(** [<ws><keyword><ws'><ds><rest>], the shape of an announcement. *)
Definition announcement_line (keyword : string) (ws ws' ds rest : list ascii)
  : list ascii :=
  ws ++ line_of keyword ++ ws' ++ ds ++ rest.

(** [<pre><k stars> TIME: <ds> <m stars><rest>], the shape of a marker. *)
Definition marker_line (pre : list ascii) (k : nat) (ds : list ascii)
    (m : nat) (rest : list ascii) : list ascii :=
  pre ++ stars k ++ line_of " TIME: " ++ ds ++ line_of " " ++ stars m ++ rest.

(** ** Conversions of integers that can raise *)

(** [0.4] and [0.5] as the source writes them: the nearest binary64
    numbers. *)
Definition float_0_4 : spec_float := S754_finite false 7205759403792794 (-54).
Definition float_0_5 : spec_float := S754_finite false 4503599627370496 (-53).

(** The conversion of an [int] operand in arithmetic with a [float]:
    rounded to nearest, an [OverflowError] when the result would not be
    finite. *)
Definition to_float (n : Z) : res spec_float :=
  match binary_normalize 53 1024 n 0 false with
  | S754_infinity _ => Raise OverflowError
  | f => Ok f
  end.

(** [n - c] and [n + c] for an integer [n] and a float [c]. *)
Definition int_sub_float (n : Z) (c : spec_float) : res spec_float :=
  f <~ to_float n ;; Ok (SFsub 53 1024 f c).

Definition int_add_float (n : Z) (c : spec_float) : res spec_float :=
  f <~ to_float n ;; Ok (SFadd 53 1024 f c).

(** [str(n)], also what an f-string puts for [{n}]: a [ValueError] when
    [n] has more digits than the limit. *)
Definition py_str (n : Z) : res string :=
  let ds := NilZero.string_of_uint (N.to_uint (Z.abs_N n)) in
  if (int_max_str_digits <? String.length ds)%nat then Raise ValueError
  else Ok (if n <? 0 then String "-" ds else ds).

(** A list comprehension whose element expression can raise. *)
Fixpoint res_map {A B} (f : A → res B) (l : list A) : res (list B) :=
  match l with
  | [] => Ok []
  | x :: l' => y <~ f x ;; ys <~ res_map f l' ;; Ok (y :: ys)
  end.

(** [min(l)] and [max(l)]: a [ValueError] on the empty list. *)
Definition py_min (l : list Z) : res Z :=
  match l with
  | [] => Raise ValueError
  | x :: l' => Ok (foldl Z.min x l')
  end.

Definition py_max (l : list Z) : res Z :=
  match l with
  | [] => Raise ValueError
  | x :: l' => Ok (foldl Z.max x l')
  end.

(** ** [draw_gantt] *)

(** The calls [draw_gantt] makes to the outside world, with the arguments
    that depend on the trace; the fixed keyword arguments (figure size,
    colours, fonts, the width 1 and height 0.8 of a box) are left out.
    [ax] is 1, 2 or 3 for [ax1], [ax2], [ax3]. *)
Inductive effect : Type :=
| Print (s : string)                              (* print(s) *)
| Subplots (height_ratios : list Z)               (* plt.subplots(3, 1, ..) *)
| SetXticks (ax : nat) (stop : Z)                 (* ax.set_xticks(range(0, stop, 1)) *)
| Grid (ax : nat) (axis : string)                 (* ax.grid(True, axis=..) *)
| SetXlim (ax : nat) (right : Z)                  (* ax.set_xlim(0, right) *)
| TickParams (ax : nat)                           (* ax.tick_params(..) *)
| SetTitle (ax : nat) (title : string)            (* ax.set_title(title) *)
| SetYlabel (ax : nat) (label : string)           (* ax.set_ylabel(label) *)
| SetYticks (ax : nat) (ticks : list Z)           (* ax.set_yticks(ticks) *)
| SetYticklabels (ax : nat) (labels : list string) (* ax.set_yticklabels(labels) *)
| SetYlim (ax : nat) (bottom top : spec_float)    (* ax.set_ylim(bottom, top) *)
| InvertYaxis (ax : nat)                          (* ax.invert_yaxis() *)
| Rectangle (x : Z) (y : spec_float)              (* patches.Rectangle((x, y), 1, 0.8, ..) *)
| AddPatch (ax : nat) (x : Z) (y : spec_float)    (* ax.add_patch(rect), rect at (x, y) *)
| Text (x : spec_float) (y : Z) (s : string)      (* ax3.text(x, y, s, ..) *)
| Xlabel (s : string)                             (* plt.xlabel(s) *)
| TightLayout                                     (* plt.tight_layout() *)
| Savefig (output_file : string).                 (* plt.savefig(output_file) *)

(** One statement of the body: the evaluation of the arguments, which
    can raise, then the call. *)
Definition step : Type := res effect.

(** The library: whether a call raises, given the calls made before it.
    [print] is taken to succeed. *)
Definition library : Type := list effect → effect → option exn.

Definition raises (lib : library) (done : list effect) (c : effect)
  : option exn :=
  match c with
  | Print _ => None
  | _ => lib done c
  end.

(** The statements in order, up to the first exception.  The result is the
    list of the calls made (the last one is the call that raised, if one
    did) and how the run ended. *)
Fixpoint run (lib : library) (steps : list step) (done : list effect)
  : list effect * res unit :=
  match steps with
  | [] => (done, Ok tt)
  | Raise e :: _ => (done, Raise e)
  | Ok c :: rest =>
      match raises lib done c with
      | Some e => (done ++ [c], Raise e)
      | None => run lib rest (done ++ [c])
      end
  end.

(** [sorted(list(data['pids']))] *)
Definition sorted_pids (d : Data) : list Z :=
  merge_sort Z.le (elements (pids d)).

(** [max_queue_depth] (source lines 99-102). *)
Definition max_queue_depth (r : gmap Z (list Z)) : Z :=
  Z.max (map_fold (fun _ q acc => Z.max acc (Z.of_nat (length q))) 0 r) 1.

(** The common styling of one axis (source lines 112-116). *)
Definition style_axis (max_t : Z) (ax : nat) : list step :=
  [Ok (SetXticks ax (max_t + 1)); Ok (Grid ax "x"); Ok (Grid ax "y");
   Ok (SetXlim ax max_t); Ok (TickParams ax)].

(** [rect = patches.Rectangle((t, row-0.4), ..); ax.add_patch(rect)] *)
Definition box (ax : nat) (t row : Z) : list step :=
  [(y <~ int_sub_float row float_0_4 ;; Ok (Rectangle t y));
   (y <~ int_sub_float row float_0_4 ;; Ok (AddPatch ax t y))].

(** [for pid in pids: if pid in m: for t in m[pid]: ..] *)
Definition lane_patches (ax : nat) (ps : list Z) (m : gmap Z (list Z))
  : list step :=
  p ← ps;
  match m !! p with
  | Some ts => t ← ts; box ax t p
  | None => []
  end.

(** The CPU lane and the I/O lane (source lines 119-129 and 132-142). *)
Definition pid_lane (ax : nat) (title : string) (ps : list Z)
    (m : gmap Z (list Z)) : list step :=
  [Ok (SetTitle ax title); Ok (SetYlabel ax "PID"); Ok (SetYticks ax ps);
   (lo <~ py_min ps ;; bottom <~ int_sub_float lo float_0_5 ;;
    hi <~ py_max ps ;; top <~ int_add_float hi float_0_5 ;;
    Ok (SetYlim ax bottom top));
   Ok (InvertYaxis ax)]
  ++ lane_patches ax ps m.

(** [for i, pid in enumerate(q_list)]: a box and a label per entry. *)
Definition queue_patches (t : Z) (q : list Z) : list step :=
  mjoin (imap (fun i p =>
                 box 3 t (Z.of_nat i)
                 ++ [(x <~ int_add_float t float_0_5 ;;
                      s <~ py_str p ;;
                      Ok (Text x (Z.of_nat i) (String "P" s)))]) q).

(** [for t in range(max_t): if t in data['ready']: ..] *)
Definition queue_lane (r : gmap Z (list Z)) (max_t : Z) : list step :=
  t ← seqZ 0 max_t;
  match r !! t with
  | Some q => queue_patches t q
  | None => []
  end.

(** The ready-queue lane (source lines 145-160). *)
Definition ready_lane (r : gmap Z (list Z)) (max_t : Z) : list step :=
  let depth := max_queue_depth r in
  [Ok (SetTitle 3 "Ready Queue"); Ok (SetYlabel 3 "Queue Position");
   Ok (SetYticks 3 (seqZ 0 depth));
   (labels <~ res_map (fun i => py_str (i + 1)) (seqZ 0 depth) ;;
    Ok (SetYticklabels 3 labels));
   (top <~ int_sub_float depth float_0_5 ;;
    Ok (SetYlim 3 (SFopp float_0_5) top));
   Ok (InvertYaxis 3)]
  ++ queue_lane r max_t.

(** The end of [draw_gantt] (source lines 162-165). *)
Definition finish (output_file : string) : list step :=
  [Ok (Xlabel "Time (Ticks)"); Ok TightLayout; Ok (Savefig output_file);
   Ok (Print (String.append "Gantt chart saved to " output_file))].

(** The statements of [draw_gantt] that make a call, in order. *)
Definition script (d : Data) (output_file : string) : list step :=
  let ps := sorted_pids d in
  match ps with
  | [] => [Ok (Print "No processes found.")]
  | _ =>
      let n := Z.of_nat (length ps) in
      let max_t := max_time d + 2 in
      [Ok (Subplots [n; n; max_queue_depth (ready d)])]
      ++ style_axis max_t 1 ++ style_axis max_t 2 ++ style_axis max_t 3
      ++ pid_lane 1 "CPU Usage" ps (cpu d)
      ++ pid_lane 2 "I/O Usage" ps (io d)
      ++ ready_lane (ready d) max_t
      ++ finish output_file
  end.

Definition draw_gantt (lib : library) (d : Data) (output_file : string)
  : list effect * res unit :=
  run lib (script d output_file) [].

(** ** The script's entry point *)

(** How a run of the script ends. *)
Inductive status : Type :=
| Returned                    (* the end of the script is reached *)
| SysExit (code : Z)          (* sys.exit(code) *)
| OpenFailed                  (* open(filename) raised *)
| IndexFailed                 (* sys.argv[1] out of range *)
| Uncaught (e : exn).         (* an exception of the parser or the renderer *)

Definition usage : string :=
  "Usage: python visualize_schedule.py <output_file>".

(** The block under [if __name__ == "__main__"] (source lines 167-176).
    [argv] is [sys.argv]; [fs] gives the text of the files that can be
    opened and read.  The result is the calls made, prints included, and
    how the run ended. *)
Definition main (lib : library) (argv : list string)
    (fs : string → option string) : list effect * status :=
  if bool_decide (length argv < 2)%nat then ([Print usage], SysExit 1)
  else
    match argv !! 1%nat with
    | None => ([], IndexFailed)
    | Some input_file =>
        match fs input_file with
        | None => ([], OpenFailed)
        | Some text =>
            match parse_output text with
            | Raise e => ([], Uncaught e)
            | Ok d =>
                match draw_gantt lib d output_path with
                | (effs, Raise e) => (effs, Uncaught e)
                | (effs, Ok _) => (effs, Returned)
                end
            end
        end
    end.

(** * Properties *)

(** ** What the patterns capture *)

Module ReFacts.
Import Re.

Lemma try_counts_Some {R} (k : nat → option R) lo n r :
  (lo ≤ n)%nat →
  try_counts k lo n = Some r →
  ∃ m, (lo ≤ m ≤ n)%nat ∧ k m = Some r.
Proof.
  induction n as [|n IH]; simpl; intros Hlo H.
  - destruct (k 0%nat) eqn:E; [|done]. exists 0%nat. split; [lia|congruence].
  - destruct (k (S n)) eqn:E.
    + exists (S n). split; [lia|congruence].
    + destruct lo as [|lo]; simpl in H.
      * destruct IH as (m & ? & ?); [lia|done|]. exists m. split; [lia|done].
      * destruct (n <=? lo)%nat eqn:Hle; [done|].
        apply Nat.leb_gt in Hle.
        destruct IH as (m & ? & ?); [lia|done|]. exists m. split; [lia|done].
Qed.

Lemma take_run_length a m s :
  (m ≤ run_length a s)%nat →
  forallb (atom_matches a) (take m s) = true ∧ length (take m s) = m.
Proof.
  revert s. induction m as [|m IH]; intros s Hm; [done|].
  destruct s as [|c s]; simpl in *; [lia|].
  destruct (atom_matches a c) eqn:E; [|lia].
  destruct (IH s) as [H1 H2]; [lia|].
  rewrite H1, H2. done.
Qed.

Lemma take_digits m s :
  (1 ≤ m ≤ run_length Digit s)%nat → digits (take m s).
Proof.
  intros [H1 H2]. destruct (take_run_length Digit m s H2) as [Hd Hl].
  split; [|exact Hd].
  intros E. rewrite E in Hl. simpl in Hl. lia.
Qed.

Lemma match_here_group p :
  forallb ok_item p = true →
  ∀ s g g', match_here p s g = Some g' →
    (digits g → digits g') ∧ (existsb capture p = true → digits g').
Proof.
  induction p as [|[a q cap] p IH]; simpl; intros Hok s g g' H.
  - inversion H; subst. split; [done|discriminate].
  - apply andb_prop in Hok as [Hit Hok]. specialize (IH Hok).
    destruct q.
    + destruct cap; [by destruct a|].
      destruct s as [|c s]; [done|].
      destruct (atom_matches a c); [|done].
      apply IH in H. exact H.
    + destruct cap; [by destruct a|].
      destruct (run_length a s <? 0)%nat eqn:Hlt; [done|].
      apply try_counts_Some in H as (m & Hm & H); [|lia].
      apply IH in H. exact H.
    + destruct (run_length a s <? 1)%nat eqn:Hlt; [done|].
      apply Nat.ltb_ge in Hlt.
      apply try_counts_Some in H as (m & Hm & H); [|lia].
      apply IH in H as [H1 H2].
      destruct cap.
      * destruct a; try done.
        assert (digits (take m s)) by (by apply take_digits).
        split; intros _; by apply H1.
      * simpl. done.
Qed.

Lemma search_group p :
  forallb ok_item p = true → existsb capture p = true →
  ∀ s g, search p s = Some g → digits g.
Proof.
  intros Hok Hcap s. induction s as [|c s IH]; simpl; intros g H.
  - destruct (match_here p [] []) eqn:E; [|done].
    inversion H; subst. by eapply match_here_group.
  - destruct (match_here p (c :: s) []) eqn:E.
    + inversion H; subst. by eapply match_here_group.
    + by apply IH.
Qed.

Lemma time_group s g : search time_pattern s = Some g → digits g.
Proof. by apply search_group. Qed.

Lemma running_group s g : search running_pattern s = Some g → digits g.
Proof. by apply search_group. Qed.

Lemma waiting_group s g : search waiting_pattern s = Some g → digits g.
Proof. by apply search_group. Qed.

Lemma ready_group s g : search ready_pattern s = Some g → digits g.
Proof. by apply search_group. Qed.

End ReFacts.

(** ** [int] on a captured group *)

Lemma digit_value_nonneg c : Re.is_digit c = true → 0 ≤ digit_value c.
Proof.
  unfold Re.is_digit, digit_value. intros H.
  apply andb_prop in H as [H _]. apply Nat.leb_le in H. lia.
Qed.

Lemma foldl_digits_nonneg s acc :
  forallb Re.is_digit s = true → 0 ≤ acc →
  0 ≤ foldl (fun a c => 10 * a + digit_value c) acc s.
Proof.
  revert acc. induction s as [|c s IH]; simpl; intros acc Hs Hacc; [done|].
  apply andb_prop in Hs as [Hc Hs]. apply IH; [done|].
  pose proof (digit_value_nonneg c Hc). lia.
Qed.

Lemma int_within_limit g :
  digits g → (length g ≤ int_max_str_digits)%nat →
  ∃ z, int g = Ok z ∧ 0 ≤ z.
Proof.
  intros [Hne Hd] Hlen. unfold int. destruct g as [|c g]; [done|].
  rewrite Hd.
  replace (int_max_str_digits <? length (c :: g))%nat with false
    by (symmetry; apply Nat.ltb_ge; lia).
  eexists. split; [done|]. by apply foldl_digits_nonneg.
Qed.

Lemma int_beyond_limit g :
  digits g → (int_max_str_digits < length g)%nat → int g = Raise ValueError.
Proof.
  intros [Hne Hd] Hlen. unfold int. destruct g as [|c g]; [done|].
  rewrite Hd.
  by replace (int_max_str_digits <? length (c :: g))%nat with true
    by (symmetry; apply Nat.ltb_lt; lia).
Qed.

Lemma int_Ok_nonneg g z : int g = Ok z → 0 ≤ z.
Proof.
  unfold int. destruct g as [|c g]; [done|].
  destruct (forallb Re.is_digit (c :: g)) eqn:Hd; [|done].
  destruct (int_max_str_digits <? length (c :: g))%nat; [done|].
  intros [= <-]. exact (foldl_digits_nonneg (c :: g) 0 Hd ltac:(lia)).
Qed.

Lemma int_cases g :
  digits g →
  if (int_max_str_digits <? length g)%nat then int g = Raise ValueError
  else ∃ z, int g = Ok z ∧ 0 ≤ z.
Proof.
  intros Hg. destruct (int_max_str_digits <? length g)%nat eqn:E.
  - apply int_beyond_limit; [done|]. by apply Nat.ltb_lt.
  - apply int_within_limit; [done|]. by apply Nat.ltb_ge.
Qed.

(** ** The loop body is the transition function *)

Lemma setdefault_append d k x :
  append_at (setdefault_nil d k) k x = Ok (appended d k x).
Proof.
  unfold append_at, setdefault_nil, getitem, appended.
  destruct (d !! k) as [l|] eqn:E.
  - by rewrite E.
  - rewrite lookup_insert_eq. simpl. by rewrite insert_insert_eq.
Qed.

Lemma selected_group_digits line g : selected_group line = Some g → digits g.
Proof.
  unfold selected_group.
  destruct (Re.search Re.time_pattern line) eqn:Et.
  { intros [= <-]. by eapply ReFacts.time_group. }
  destruct (Re.search Re.running_pattern line) eqn:Er.
  { intros [= <-]. by eapply ReFacts.running_group. }
  destruct (Re.search Re.waiting_pattern line) eqn:Ew.
  { intros [= <-]. by eapply ReFacts.waiting_group. }
  apply ReFacts.ready_group.
Qed.

(** What [int] does with the group of a line. *)
Lemma int_selected_group line g :
  selected_group line = Some g →
  if oversized line then int g = Raise ValueError
  else ∃ z, int g = Ok z ∧ 0 ≤ z.
Proof.
  intros Hg. unfold oversized. rewrite Hg.
  apply int_cases. by eapply selected_group_digits.
Qed.

Ltac case_patterns line :=
  unfold selected_group;
  destruct (Re.search Re.time_pattern line) as [?g|] eqn:?Et;
    [|destruct (Re.search Re.running_pattern line) as [?g|] eqn:?Er;
      [|destruct (Re.search Re.waiting_pattern line) as [?g|] eqn:?Ew;
        [|destruct (Re.search Re.ready_pattern line) as [?g|] eqn:?Ey]]].

Lemma loop_body_apply st line :
  oversized line = false →
  loop_body st line = Ok (apply_line (classify line) st).
Proof.
  intros Hov.
  assert (Hint : ∀ g, selected_group line = Some g → ∃ z, int g = Ok z).
  { intros g Hg. pose proof (int_selected_group line g Hg) as H.
    rewrite Hov in H. destruct H as (z & ? & _). by exists z. }
  revert Hint. unfold loop_body, classify, int_or. case_patterns line;
    intros Hint; try (destruct (Hint _ eq_refl) as [p ->]); simpl; try done.
  - destruct (bool_decide (p ≠ -1)); [|done]. by rewrite setdefault_append.
  - by rewrite setdefault_append.
Qed.

Lemma loop_body_oversized st line :
  oversized line = true → loop_body st line = Raise ValueError.
Proof.
  intros Hov.
  assert (Hint : ∀ g, selected_group line = Some g → int g = Raise ValueError).
  { intros g Hg. pose proof (int_selected_group line g Hg) as H.
    by rewrite Hov in H. }
  revert Hov Hint. unfold loop_body, oversized. case_patterns line;
    intros Hov Hint; try (rewrite (Hint _ eq_refl)); done.
Qed.

(** The loop body, on every line from every state. *)
Lemma loop_body_cases st line :
  loop_body st line
  = if oversized line then Raise ValueError
    else Ok (apply_line (classify line) st).
Proof.
  destruct (oversized line) eqn:E;
    [by apply loop_body_oversized|by apply loop_body_apply].
Qed.

Lemma classify_nonneg line : nonneg_line (classify line).
Proof.
  unfold classify, int_or. case_patterns line; try done;
    (destruct (int g) as [z|] eqn:E; [|done]); by apply int_Ok_nonneg in E.
Qed.

Lemma within_limit_cons l lines :
  within_limit (l :: lines) = negb (oversized l) && within_limit lines.
Proof. done. Qed.

Lemma within_limit_app l1 l2 :
  within_limit (l1 ++ l2) = within_limit l1 && within_limit l2.
Proof. unfold within_limit. apply forallb_app. Qed.

(** The whole loop: the fold when no line is oversized, a [ValueError]
    otherwise. *)
Lemma run_lines_cases lines : ∀ st,
  run_lines st lines
  = if within_limit lines then Ok (fold_lines st lines) else Raise ValueError.
Proof.
  induction lines as [|l lines IH]; intros st; [done|].
  simpl run_lines. rewrite loop_body_cases, within_limit_cons.
  destruct (oversized l); [done|]. simpl. apply IH.
Qed.

Lemma parse_output_cases text :
  parse_output text
  = if within_limit (lines_of text)
    then Ok (data (fold_lines init (lines_of text)))
    else Raise ValueError.
Proof.
  unfold parse_output. fold (lines_of text). rewrite run_lines_cases.
  by destruct (within_limit (lines_of text)).
Qed.

Lemma unrecognized_classify line :
  unrecognized line = true → classify line = Unrecognized.
Proof.
  unfold unrecognized, classify.
  destruct (Re.search Re.time_pattern line); [done|].
  destruct (Re.search Re.running_pattern line); [done|].
  destruct (Re.search Re.waiting_pattern line); [done|].
  by destruct (Re.search Re.ready_pattern line).
Qed.

Lemma unrecognized_not_oversized line :
  unrecognized line = true → oversized line = false.
Proof.
  unfold unrecognized, oversized, selected_group.
  destruct (Re.search Re.time_pattern line); [done|].
  destruct (Re.search Re.running_pattern line); [done|].
  destruct (Re.search Re.waiting_pattern line); [done|].
  by destruct (Re.search Re.ready_pattern line).
Qed.

Lemma loop_body_unrecognized st line :
  unrecognized line = true → loop_body st line = Ok st.
Proof.
  intros H. rewrite loop_body_apply by by apply unrecognized_not_oversized.
  by rewrite (unrecognized_classify _ H).
Qed.

(** ** The invariant is kept *)

Lemma Inv_init : Inv init.
Proof.
  split; simpl; try done.
  - intros p [x Hx]. by rewrite lookup_empty in Hx.
  - intros p [x Hx]. by rewrite lookup_empty in Hx.
Qed.

Lemma appended_is_Some (d : gmap Z (list Z)) k x p :
  is_Some (appended d k x !! p) → p = k ∨ is_Some (d !! p).
Proof.
  unfold appended. destruct (decide (k = p)) as [->|Hne]; [by left|].
  rewrite lookup_insert_ne by done. by right.
Qed.

Lemma appended_ticks (d : gmap Z (list Z)) k x p l t :
  appended d k x !! p = Some l → t ∈ l →
  t = x ∨ ∃ l0, d !! p = Some l0 ∧ t ∈ l0.
Proof.
  unfold appended. destruct (decide (k = p)) as [->|Hne].
  - rewrite lookup_insert_eq. intros [= <-] Ht.
    apply elem_of_app in Ht as [Ht|Ht].
    + destruct (d !! p) as [l0|]; simpl in Ht; [|by apply elem_of_nil in Ht].
      right. by exists l0.
    + left. by apply list_elem_of_singleton in Ht.
  - rewrite lookup_insert_ne by done. intros Hl Ht. right. by exists l.
Qed.

Lemma apply_line_Inv e st : nonneg_line e → Inv st → Inv (apply_line e st).
Proof.
  intros He [Hr Hev Hc Hi Hp Ht Hct Hit].
  assert (Hadd : ∀ (p q : Z) (s : gset Z),
             q ∈ ({[p]} ∪ s : gset Z) ↔ q = p ∨ q ∈ s).
  { intros p q s. rewrite elem_of_union, elem_of_singleton. done. }
  destruct e as [t|p|p|p|]; simpl in *.
  - split; simpl; try done.
    + lia.
    + intros p l t' Hl Hin. specialize (Hct p l t' Hl Hin). lia.
    + intros p l t' Hl Hin. specialize (Hit p l t' Hl Hin). lia.
  - destruct (bool_decide (p ≠ -1)); split; simpl; try done.
    + intros q Hq. apply Hadd.
      apply appended_is_Some in Hq as [->|Hq]; [by left|right; by apply Hc].
    + intros q Hq. apply Hadd. right. by apply Hi.
    + intros q Hq. apply Hadd in Hq as [->|Hq]; [done|by apply Hp].
    + intros q l t Hl Hin.
      destruct (appended_ticks _ _ _ _ _ _ Hl Hin) as [->|(l0 & Hl0 & Hin0)];
        [done|by eapply Hct].
  - split; simpl; try done.
    + intros q Hq. apply Hadd. right. by apply Hc.
    + intros q Hq. apply Hadd.
      apply appended_is_Some in Hq as [->|Hq]; [by left|right; by apply Hi].
    + intros q Hq. apply Hadd in Hq as [->|Hq]; [done|by apply Hp].
    + intros q l t Hl Hin.
      destruct (appended_ticks _ _ _ _ _ _ Hl Hin) as [->|(l0 & Hl0 & Hin0)];
        [done|by eapply Hit].
  - split; simpl; try done.
    + intros q Hq. apply Hadd. right. by apply Hc.
    + intros q Hq. apply Hadd. right. by apply Hi.
    + intros q Hq. apply Hadd in Hq as [->|Hq]; [done|by apply Hp].
  - by split.
Qed.

Lemma fold_lines_Inv lines : ∀ st, Inv st → Inv (fold_lines st lines).
Proof.
  induction lines as [|l lines IH]; intros st Hst; simpl; [done|].
  apply IH, apply_line_Inv; [apply classify_nonneg|done].
Qed.

(** ** The largest tick *)

Lemma max_of_cons t l : max_of (t :: l) = Z.max t (max_of l).
Proof. done. Qed.

Lemma announced_classify line :
  announced line
  = match classify line with
    | TickMarker t => Some t
    | _ => None
    end.
Proof.
  unfold announced, classify, int_or. case_patterns line; try done;
    by destruct (int g).
Qed.

Lemma announced_ticks_cons l lines :
  announced_ticks (l :: lines)
  = match classify l with
    | TickMarker t => t :: announced_ticks lines
    | _ => announced_ticks lines
    end.
Proof.
  unfold announced_ticks. simpl. rewrite announced_classify.
  by destruct (classify l).
Qed.

Lemma fold_lines_max_time lines : ∀ st,
  0 ≤ max_time (data st) →
  max_time (data (fold_lines st lines))
  = Z.max (max_time (data st)) (max_of (announced_ticks lines)).
Proof.
  induction lines as [|l lines IH]; intros st Hst.
  - unfold max_of. simpl. lia.
  - rewrite announced_ticks_cons.
    change (fold_lines st (l :: lines))
      with (fold_lines (apply_line (classify l) st) lines).
    destruct (classify l) as [t|p|p|p|] eqn:E.
    + rewrite IH by (simpl; lia). rewrite max_of_cons. simpl. lia.
    + rewrite IH by (simpl; destruct (bool_decide (p ≠ -1)); simpl; lia).
      simpl. by destruct (bool_decide (p ≠ -1)).
    + by rewrite IH.
    + by rewrite IH.
    + by rewrite IH.
Qed.

Lemma max_of_nonneg l : 0 ≤ max_of l.
Proof. induction l as [|x l IH]; [done|]. rewrite max_of_cons. lia. Qed.

Lemma fold_lines_init_Inv lines : Inv (fold_lines init lines).
Proof. apply fold_lines_Inv, Inv_init. Qed.

(** ** The scratch locals and the unreachable block *)

(** The three per-tick scratch locals and [pid] are written by the loop
    but nothing recorded in the trace depends on them. *)
Lemma scratch_locals_unobserved (st1 st2 : Locals) (line : list ascii) :
  data st1 = data st2 → current_time st1 = current_time st2 →
  if oversized line
  then loop_body st1 line = Raise ValueError
       ∧ loop_body st2 line = Raise ValueError
  else ∃ st1' st2', loop_body st1 line = Ok st1' ∧ loop_body st2 line = Ok st2'
         ∧ data st1' = data st2' ∧ current_time st1' = current_time st2'.
Proof.
  intros Hd Ht. rewrite !loop_body_cases. destruct (oversized line); [done|].
  do 2 eexists. split; [done|]. split; [done|].
  destruct (classify line) as [t|p|p|p|]; simpl; rewrite ?Hd, ?Ht; try done.
  destruct (bool_decide (p ≠ -1)); simpl; by rewrite ?Hd, ?Ht.
Qed.

(** What the block of source lines 85-88 does when it is entered with
    [pid] bound: the queue of the current tick gets [pid] appended unless
    it is already there. *)
Lemma trailing_block_records (g : list ascii) (st : Locals) (p : Z) :
  pid st = Some p →
  ∃ st', trailing_block (Some g) st = Ok st'
    ∧ ready (data st') !! current_time st
      = Some (let q := default [] (ready (data st) !! current_time st) in
              if bool_decide (p ∈ q) then q else q ++ [p]).
Proof.
  intros Hp. unfold trailing_block. rewrite Hp.
  set (t := current_time st). set (r := ready (data st)).
  assert (Hget : getitem (setdefault_nil r t) t = Ok (default [] (r !! t))).
  { unfold getitem, setdefault_nil.
    destruct (r !! t) as [q|] eqn:E; [by rewrite E|].
    by rewrite lookup_insert_eq. }
  unfold read_local, res_bind at 1 2. rewrite Hget.
  set (q := default [] (r !! t)). cbv zeta.
  destruct (bool_decide (p ∈ q)) eqn:Hin.
  - eexists. split; [reflexivity|]. simpl.
    unfold setdefault_nil, q.
    destruct (r !! t) as [q0|] eqn:E; [by rewrite E|].
    by rewrite lookup_insert_eq.
  - unfold append_at. rewrite Hget. simpl.
    eexists. split; [reflexivity|]. simpl. by rewrite lookup_insert_eq.
Qed.

(** The effect of a marker line: the tick and the maximum change, what
    is recorded stays. *)
Lemma marker_line_frame (st : Locals) (line : list ascii) (t : Z) :
  announced line = Some t →
  ∃ st', loop_body st line = Ok st'
    ∧ current_time st' = t
    ∧ max_time (data st') = Z.max (max_time (data st)) t
    ∧ cpu (data st') = cpu (data st)
    ∧ io (data st') = io (data st)
    ∧ ready (data st') = ready (data st)
    ∧ events (data st') = events (data st)
    ∧ pids (data st') = pids (data st)
    ∧ current_running st' = -1 ∧ current_waiting st' = []
    ∧ current_ready st' = [] ∧ pid st' = pid st.
Proof.
  unfold announced, loop_body.
  destruct (Re.search Re.time_pattern line) as [g|]; [|done].
  destruct (int g) as [z|]; [|done]. intros [= ->].
  eexists. split; [reflexivity|]. done.
Qed.

(** ** The renderer's guard *)

Lemma fold_lines_unrecognized lines : ∀ st,
  forallb unrecognized lines = true → fold_lines st lines = st.
Proof.
  induction lines as [|l lines IH]; intros st H; simpl; [done|].
  simpl in H. apply andb_prop in H as [Hl H].
  rewrite (unrecognized_classify _ Hl). simpl. by apply IH.
Qed.

Lemma sorted_pids_nonempty (s : gset Z) :
  s ≠ ∅ → merge_sort Z.le (elements s) ≠ [].
Proof.
  intros Hs Hnil. apply Hs. apply leibniz_equiv, elements_empty_iff.
  apply Permutation_nil_r. rewrite <- Hnil.
  symmetry. apply merge_sort_Permutation.
Qed.

Lemma script_empty (d : Data) (out : string) :
  pids d = ∅ → script d out = [Ok (Print "No processes found.")].
Proof. intros H. unfold script, sorted_pids. by rewrite H, elements_empty. Qed.

Lemma draw_gantt_empty (lib : library) (d : Data) (out : string) :
  pids d = ∅ → draw_gantt lib d out = ([Print "No processes found."], Ok tt).
Proof. intros H. unfold draw_gantt. by rewrite script_empty. Qed.

Lemma parse_output_unrecognized text :
  forallb unrecognized (lines_of text) = true → parse_output text = Ok (data init).
Proof.
  intros H. rewrite parse_output_cases.
  assert (within_limit (lines_of text) = true) as ->.
  { unfold within_limit. apply forallb_forall. intros l Hl.
    rewrite forallb_forall in H. by rewrite unrecognized_not_oversized by auto. }
  by rewrite fold_lines_unrecognized.
Qed.

(** ** The claims *)

(** C1 (the code differs): on the scenario-A log [parse_output] returns
    cpu = {1:[0], 2:[1]}, io = {1:[1]}, max_time = 1 and pids = {1,2} as
    expected, but its ready map is empty instead of {0:[2], 1:[1]}. *)
Theorem C1_scenario_A_ready_map_empty :
  ∃ d, parse_output scenario_A = Ok d
    ∧ cpu d = {[1 := [0]; 2 := [1]]}
    ∧ io d = {[1 := [1]]}
    ∧ max_time d = 1
    ∧ pids d = {[1; 2]}
    ∧ ready d = ∅
    ∧ ready d ≠ {[0 := [2]; 1 := [1]]}.
Proof.
  exists (mkData {[1 := [0]; 2 := [1]]} {[1 := [1]]} ∅ ∅ 1 {[1; 2]}).
  split; [by vm_compute|]. simpl. repeat split.
  intros H. apply (f_equal (fun m => m !! 0)) in H.
  by vm_compute in H.
Qed.

(** C2: for every input text the ready map of the returned trace is
    empty (a text with an oversized number returns no trace: [int] raises
    [ValueError]); no line, from any state, changes [data['ready']], because
    the block that writes it runs only when [ready_match] is [None]. *)
Theorem C2_ready_map_always_empty (text : string) (st : Locals)
    (line : list ascii) :
  (if within_limit (lines_of text)
   then ∃ d, parse_output text = Ok d ∧ ready d = ∅
   else parse_output text = Raise ValueError)
  ∧ (if oversized line
     then loop_body st line = Raise ValueError
     else ∃ st', loop_body st line = Ok st'
            ∧ ready (data st') = ready (data st))
  ∧ trailing_block None st = Ok st.
Proof.
  split; [|split].
  - rewrite parse_output_cases. destruct (within_limit (lines_of text)); [|done].
    eexists. split; [done|]. apply fold_lines_init_Inv.
  - rewrite loop_body_cases. destruct (oversized line); [done|].
    eexists. split; [done|].
    destruct (classify line) as [t|p|p|p|]; simpl; try done.
    by destruct (bool_decide (p ≠ -1)).
  - done.
Qed.

(** C3 (the code differs): two ready-announcements of PID 2 in the block
    of tick 0 leave no entry for tick 0 in the ready map, where one entry
    [2] is expected; the PID still reaches [pids]. *)
Theorem C3_duplicate_ready_not_recorded :
  ∃ d, parse_output duplicate_ready_log = Ok d
    ∧ ready d !! 0 = None
    ∧ ready d !! 0 ≠ Some [2]
    ∧ pids d = {[2]}.
Proof.
  exists (mkData ∅ ∅ ∅ ∅ 0 {[2]}).
  split; [by vm_compute|]. simpl. by rewrite lookup_empty.
Qed.

(** C4: every PID that is a key of [cpu] or of [io], or an element of a
    queue of [ready], in the returned trace is a member of [pids] (a text
    with an oversized number returns no trace). *)
Theorem C4_pids_closure (text : string) :
  if within_limit (lines_of text)
  then ∃ d, parse_output text = Ok d
         ∧ (∀ p, is_Some (cpu d !! p) → p ∈ pids d)
         ∧ (∀ p, is_Some (io d !! p) → p ∈ pids d)
         ∧ (∀ t q p, ready d !! t = Some q → p ∈ q → p ∈ pids d)
  else parse_output text = Raise ValueError.
Proof.
  rewrite parse_output_cases. destruct (within_limit (lines_of text)); [|done].
  pose proof (fold_lines_init_Inv (lines_of text)) as HI.
  eexists. split; [done|].
  split; [apply HI|]. split; [apply HI|].
  intros t q p Hq. rewrite (inv_ready _ HI), lookup_empty in Hq. done.
Qed.

(** C5, as the claim states it, fails: on a running-announcement with a
    number of 4301 digits [int] raises [ValueError], in the loop body and
    in [parse_output]. *)
Lemma C5_counterexample :
  loop_body init oversized_line = Raise ValueError
  ∧ parse_output oversized_log = Raise ValueError
  ∧ ¬ ∃ d, parse_output oversized_log = Ok d.
Proof.
  assert (H : parse_output oversized_log = Raise ValueError)
    by (vm_compute; reflexivity).
  split; [vm_compute; reflexivity|]. split; [exact H|].
  intros [d Hd]. rewrite H in Hd. discriminate.
Qed.

(** C5 (amended): [parse_output] returns a trace for every input text in
    which no recognized line carries a number of more than 4300 digits, and
    raises [ValueError] (from [int]) on the others; likewise the loop body
    on one line from any state; and a line that none of the four patterns
    matches leaves every local of the parser as it was. *)
Theorem C5_total_within_digit_limit (text : string) (st : Locals)
    (line : list ascii) :
  (if within_limit (lines_of text)
   then ∃ d, parse_output text = Ok d
   else parse_output text = Raise ValueError)
  ∧ (if oversized line
     then loop_body st line = Raise ValueError
     else ∃ st', loop_body st line = Ok st')
  ∧ (unrecognized line = true → loop_body st line = Ok st).
Proof.
  split; [|split].
  - rewrite parse_output_cases. destruct (within_limit (lines_of text)); eauto.
  - rewrite loop_body_cases. destruct (oversized line); eauto.
  - apply loop_body_unrecognized.
Qed.

Lemma C5_witness :
  (∃ d, parse_output scenario_B = Ok d)
  ∧ (∃ st', loop_body init (line_of "pid 3 is running") = Ok st')
  ∧ loop_body init (line_of "pid 3 is running") = Ok init.
Proof.
  destruct (C5_total_within_digit_limit scenario_B init
              (line_of "pid 3 is running")) as (H1 & H2 & H3).
  split; [exact H1|]. split; [exact H2|]. apply H3. vm_compute. reflexivity.
Defined.

(** C6: [-1] is never a member of [pids] nor a key of [cpu] in the
    returned trace; no line, from any state, adds a [cpu] entry for [-1] or
    adds [-1] to [pids]; and the line [running pid: -1] (with or without
    its newline) changes nothing at all.  (A text or a line with an
    oversized number makes [int] raise and returns nothing.) *)
Theorem C6_sentinel_never_recorded (text : string) (st : Locals)
    (line : list ascii) :
  (if within_limit (lines_of text)
   then ∃ d, parse_output text = Ok d ∧ ((-1) ∉ pids d) ∧ cpu d !! (-1) = None
   else parse_output text = Raise ValueError)
  ∧ (if oversized line
     then loop_body st line = Raise ValueError
     else ∃ st', loop_body st line = Ok st'
            ∧ cpu (data st') !! (-1) = cpu (data st) !! (-1)
            ∧ ((-1) ∈ pids (data st') ↔ (-1) ∈ pids (data st)))
  ∧ loop_body st (line_of "running pid: -1") = Ok st
  ∧ loop_body st (line_of "running pid: -1" ++ [newline]) = Ok st.
Proof.
  split; [|split; [|split]].
  - rewrite parse_output_cases. destruct (within_limit (lines_of text)); [|done].
    pose proof (fold_lines_init_Inv (lines_of text)) as HI.
    eexists. split; [done|].
    set (s := fold_lines init (lines_of text)) in *.
    assert (Hno : (-1) ∉ pids (data s)).
    { intros Hin. apply (inv_pids_nonneg _ HI) in Hin. lia. }
    split; [done|].
    destruct (cpu (data s) !! (-1)) as [l|] eqn:E; [|done].
    exfalso. apply Hno, (inv_cpu_pids _ HI). by rewrite E.
  - rewrite loop_body_cases. destruct (oversized line); [done|].
    eexists. split; [done|].
    pose proof (classify_nonneg line) as Hnn.
    assert (Hadd : ∀ (p : Z) (s : gset Z), 0 ≤ p →
               (-1) ∈ ({[p]} ∪ s : gset Z) ↔ (-1) ∈ s).
    { intros p s Hp. rewrite elem_of_union, elem_of_singleton.
      split; [intros [?|?]; [lia|done]|by right]. }
    destruct (classify line) as [t|p|p|p|]; simpl in *; try done.
    + destruct (bool_decide (p ≠ -1)); simpl; [|done].
      split; [|by apply Hadd].
      unfold appended. rewrite lookup_insert_ne by lia. done.
    + split; [done|by apply Hadd].
    + split; [done|by apply Hadd].
  - apply loop_body_unrecognized. by vm_compute.
  - apply loop_body_unrecognized. by vm_compute.
Qed.

(** C7 (the code differs): a ready-announcement before any tick marker
    raises nothing and reaches [pids], but nothing is recorded under tick 0
    of the ready map, where the queue [3] is expected; running- and
    waiting-announcements before any marker are recorded at tick 0. *)
Theorem C7_pre_marker_ready_not_recorded :
  (∃ d, parse_output pre_marker_ready_log = Ok d
      ∧ ready d !! 0 = None
      ∧ ready d !! 0 ≠ Some [3]
      ∧ pids d = {[3]})
  ∧ (∃ d, parse_output pre_marker_log = Ok d
      ∧ cpu d = {[1 := [0]]}
      ∧ io d = {[2 := [0]]}
      ∧ ready d = ∅
      ∧ pids d = {[1; 2; 3]}).
Proof.
  split.
  - exists (mkData ∅ ∅ ∅ ∅ 0 {[3]}).
    split; [by vm_compute|]. simpl. by rewrite lookup_empty.
  - exists (mkData {[1 := [0]]} {[2 := [0]]} ∅ ∅ 0 {[1; 2; 3]}).
    split; [by vm_compute|]. done.
Qed.

(** C8 (the code differs): on a log that announces tick 5 twice with a
    ready-announcement in each block, nothing is appended to the queue of
    tick 5: the ready map stays empty where the queue [3, 4] is expected.
    For the rest the claim holds: a marker line changes only the current
    tick and [max_time], and with running- and waiting-announcements both
    blocks append to the same lists. *)
Theorem C8_repeated_marker_ready_not_recorded (st : Locals)
    (line : list ascii) :
  (∃ d, parse_output repeated_marker_ready_log = Ok d
      ∧ ready d = ∅
      ∧ ready d !! 5 ≠ Some [3; 4]
      ∧ pids d = {[3; 4]}
      ∧ max_time d = 5)
  ∧ (∃ d, parse_output repeated_marker_log = Ok d
       ∧ cpu d = {[1 := [5; 5]]}
       ∧ io d = {[2 := [5; 5]]}
       ∧ max_time d = 5)
  ∧ match announced line with
    | Some t =>
        ∃ st', loop_body st line = Ok st'
          ∧ current_time st' = t
          ∧ max_time (data st') = Z.max (max_time (data st)) t
          ∧ cpu (data st') = cpu (data st)
          ∧ io (data st') = io (data st)
          ∧ ready (data st') = ready (data st)
          ∧ pids (data st') = pids (data st)
    | None => True
    end.
Proof.
  split; [|split].
  - exists (mkData ∅ ∅ ∅ ∅ 5 {[3; 4]}).
    split; [by vm_compute|]. simpl. by rewrite lookup_empty.
  - exists (mkData {[1 := [5; 5]]} {[2 := [5; 5]]} ∅ ∅ 5 {[1; 2]}).
    split; [by vm_compute|]. done.
  - destruct (announced line) as [t|] eqn:E; [|done].
    destruct (marker_line_frame st line t E)
      as (st' & H1 & H2 & H3 & H4 & H5 & H6 & _ & H7 & _).
    by exists st'.
Qed.

(** C9: in the returned trace [max_time] is at least every tick recorded
    in [cpu] and [io] and every key of [ready], and it is the maximum of 0
    and the ticks announced by the marker lines of the text (a text with an
    oversized number returns no trace). *)
Theorem C9_max_time_bounds_ticks (text : string) :
  if within_limit (lines_of text)
  then ∃ d, parse_output text = Ok d
         ∧ (∀ p l t, cpu d !! p = Some l → t ∈ l → t ≤ max_time d)
         ∧ (∀ p l t, io d !! p = Some l → t ∈ l → t ≤ max_time d)
         ∧ (∀ t, is_Some (ready d !! t) → t ≤ max_time d)
         ∧ max_time d = max_of (announced_ticks (lines_of text))
  else parse_output text = Raise ValueError.
Proof.
  rewrite parse_output_cases. destruct (within_limit (lines_of text)); [|done].
  pose proof (fold_lines_init_Inv (lines_of text)) as HI.
  eexists. split; [done|].
  split; [|split; [|split]].
  - intros p l t Hl Hin. by apply (inv_cpu_ticks _ HI p l t).
  - intros p l t Hl Hin. by apply (inv_io_ticks _ HI p l t).
  - intros t [q Hq]. rewrite (inv_ready _ HI), lookup_empty in Hq. done.
  - rewrite fold_lines_max_time by done. simpl.
    pose proof (max_of_nonneg (announced_ticks (lines_of text))). lia.
Qed.

(** C10: when [pids] is empty, [draw_gantt] prints the diagnostic and
    does nothing else, whatever the library would do: no call to the
    plotting library, no file written.  A log of unrecognized lines only
    gives such a trace, with [max_time = 0]. *)
Theorem C10_empty_trace_short_circuits (lib : library) (d : Data)
    (out text : string) :
  (pids d = ∅ →
   draw_gantt lib d out = ([Print "No processes found."], Ok tt))
  ∧ (forallb unrecognized (lines_of text) = true →
     ∃ d', parse_output text = Ok d'
       ∧ pids d' = ∅
       ∧ max_time d' = 0
       ∧ draw_gantt lib d' out = ([Print "No processes found."], Ok tt)).
Proof.
  split; [apply draw_gantt_empty|].
  intros H. eexists. split; [by apply parse_output_unrecognized|].
  split; [done|]. split; [done|]. by apply draw_gantt_empty.
Qed.

Lemma C10_witness :
  draw_gantt (fun _ _ => Some (Foreign "RuntimeError")) (mkData ∅ ∅ ∅ ∅ 0 ∅)
      output_path
    = ([Print "No processes found."], Ok tt)
  ∧ ∃ d', parse_output scenario_B = Ok d'
       ∧ pids d' = ∅
       ∧ max_time d' = 0
       ∧ draw_gantt (fun _ _ => Some (Foreign "RuntimeError")) d' output_path
         = ([Print "No processes found."], Ok tt).
Proof.
  destruct (C10_empty_trace_short_circuits
              (fun _ _ => Some (Foreign "RuntimeError"))
              (mkData ∅ ∅ ∅ ∅ 0 ∅) output_path scenario_B) as [H1 H2].
  split; [apply H1; reflexivity|].
  apply H2. vm_compute. reflexivity.
Defined.

(** * Further properties of the parser *)

Lemma fold_lines_ind (P : Locals → Prop) :
  (∀ e st, nonneg_line e → P st → P (apply_line e st)) →
  ∀ lines st, P st → P (fold_lines st lines).
Proof.
  intros Hstep lines. induction lines as [|l lines IH]; intros st Hst; [done|].
  simpl. apply IH, Hstep; [apply classify_nonneg|done].
Qed.

Lemma fold_lines_cons st l lines :
  fold_lines st (l :: lines) = fold_lines (apply_line (classify l) st) lines.
Proof. done. Qed.

Lemma appended_nonempty (m : gmap Z (list Z)) k x p l :
  (∀ q l0, m !! q = Some l0 → l0 ≠ []) →
  appended m k x !! p = Some l → l ≠ [].
Proof.
  unfold appended. intros Hm. destruct (decide (k = p)) as [->|Hne].
  - rewrite lookup_insert_eq. intros [= <-]. by destruct (default [] (m !! p)).
  - rewrite lookup_insert_ne by done. apply Hm.
Qed.

Lemma fold_lines_nonempty_lists lines st :
  (∀ p l, cpu (data st) !! p = Some l → l ≠ []) →
  (∀ p l, io (data st) !! p = Some l → l ≠ []) →
  (∀ p l, cpu (data (fold_lines st lines)) !! p = Some l → l ≠ [])
  ∧ (∀ p l, io (data (fold_lines st lines)) !! p = Some l → l ≠ []).
Proof.
  intros Hc Hi.
  apply (fold_lines_ind (fun s =>
    (∀ p l, cpu (data s) !! p = Some l → l ≠ [])
    ∧ (∀ p l, io (data s) !! p = Some l → l ≠ []))); [|done].
  clear. intros e st _ [Hc Hi].
  destruct e as [t|q|q|q|]; simpl; try done.
  - destruct (bool_decide (q ≠ -1)); simpl; [|done].
    split; [|done]. intros p l. by apply appended_nonempty.
  - split; [done|]. intros p l. by apply appended_nonempty.
Qed.

(** X1: in the trace of every text, [events] is empty, no list recorded in
    [cpu] or [io] is empty, every PID and every recorded tick is at least 0,
    and so is [max_time] (a text with an oversized number returns no
    trace). *)
Theorem parse_output_well_formed (text : string) :
  if within_limit (lines_of text)
  then ∃ d, parse_output text = Ok d
         ∧ events d = ∅
         ∧ (∀ p l, cpu d !! p = Some l → l ≠ [])
         ∧ (∀ p l, io d !! p = Some l → l ≠ [])
         ∧ (∀ p, p ∈ pids d → 0 ≤ p)
         ∧ (∀ p l t, cpu d !! p = Some l → t ∈ l → 0 ≤ t)
         ∧ (∀ p l t, io d !! p = Some l → t ∈ l → 0 ≤ t)
         ∧ 0 ≤ max_time d
  else parse_output text = Raise ValueError.
Proof.
  rewrite parse_output_cases. destruct (within_limit (lines_of text)); [|done].
  eexists. split; [done|].
  pose proof (fold_lines_init_Inv (lines_of text)) as HI.
  destruct (fold_lines_nonempty_lists (lines_of text) init) as [Hc Hi]; [done..|].
  split; [apply HI|]. split; [exact Hc|]. split; [exact Hi|].
  split; [apply HI|].
  split; [intros p l t Hl Hin; by apply (inv_cpu_ticks _ HI p l t)|].
  split; [intros p l t Hl Hin; by apply (inv_io_ticks _ HI p l t)|].
  pose proof (inv_time _ HI). lia.
Qed.

Lemma attributed_cons t l ls :
  attributed t (l :: ls)
  = match classify l with
    | TickMarker t' => attributed t' ls
    | Unrecognized => attributed t ls
    | e => (t, e) :: attributed t ls
    end.
Proof. done. Qed.

Lemma recorded_appended m k x p :
  recorded (appended m k x) p
  = if bool_decide (k = p) then recorded m p ++ [x] else recorded m p.
Proof.
  unfold recorded, appended. case_bool_decide as H.
  - subst. by rewrite lookup_insert_eq.
  - by rewrite lookup_insert_ne.
Qed.

Lemma fold_lines_cpu p lines : ∀ st,
  recorded (cpu (data (fold_lines st lines))) p
  = recorded (cpu (data st)) p
      ++ running_ticks p (attributed (current_time st) lines).
Proof.
  induction lines as [|l lines IH]; intros st.
  - simpl. by rewrite app_nil_r.
  - rewrite fold_lines_cons, IH, attributed_cons.
    pose proof (classify_nonneg l) as Hnn.
    destruct (classify l) as [t|q|q|q|]; simpl in *; try done.
    rewrite bool_decide_eq_true_2 by lia. simpl.
    rewrite recorded_appended. unfold running_ticks at 2. simpl.
    case_bool_decide; [|done]. by rewrite <- app_assoc.
Qed.

Lemma fold_lines_io p lines : ∀ st,
  recorded (io (data (fold_lines st lines))) p
  = recorded (io (data st)) p
      ++ waiting_ticks p (attributed (current_time st) lines).
Proof.
  induction lines as [|l lines IH]; intros st.
  - simpl. by rewrite app_nil_r.
  - rewrite fold_lines_cons, IH, attributed_cons.
    destruct (classify l) as [t|q|q|q|]; simpl in *; try done.
    + by destruct (bool_decide (q ≠ -1)).
    + rewrite recorded_appended. unfold waiting_ticks at 2. simpl.
      case_bool_decide; [|done]. by rewrite <- app_assoc.
Qed.

Lemma lookup_of_recorded (m : gmap Z (list Z)) p :
  (∀ l, m !! p = Some l → l ≠ []) →
  m !! p = match recorded m p with [] => None | l => Some l end.
Proof.
  unfold recorded. intros Hne. destruct (m !! p) as [l|] eqn:E; [|done].
  simpl. destruct l; [by specialize (Hne [] eq_refl)|done].
Qed.

(** X2: [cpu] holds, for each PID, exactly the ticks of its
    running-announcements in the order of the log, each with the tick of the
    last marker line before it (0 before any marker); repeated
    announcements are all kept, and a PID without any has no key (a text
    with an oversized number returns no trace). *)
Theorem parse_output_cpu_exact (text : string) :
  if within_limit (lines_of text)
  then ∃ d, parse_output text = Ok d
         ∧ ∀ p, cpu d !! p
             = match running_ticks p (attributed 0 (lines_of text)) with
               | [] => None
               | l => Some l
               end
  else parse_output text = Raise ValueError.
Proof.
  rewrite parse_output_cases. destruct (within_limit (lines_of text)); [|done].
  eexists. split; [done|]. intros p.
  destruct (fold_lines_nonempty_lists (lines_of text) init) as [Hc _]; [done..|].
  rewrite (lookup_of_recorded _ p) by apply Hc.
  by rewrite fold_lines_cpu.
Qed.

(** X3: [io] holds, for each PID, exactly the ticks of its
    waiting-announcements in the order of the log, each with the tick of the
    last marker line before it (0 before any marker) (a text with an
    oversized number returns no trace). *)
Theorem parse_output_io_exact (text : string) :
  if within_limit (lines_of text)
  then ∃ d, parse_output text = Ok d
         ∧ ∀ p, io d !! p
             = match waiting_ticks p (attributed 0 (lines_of text)) with
               | [] => None
               | l => Some l
               end
  else parse_output text = Raise ValueError.
Proof.
  rewrite parse_output_cases. destruct (within_limit (lines_of text)); [|done].
  eexists. split; [done|]. intros p.
  destruct (fold_lines_nonempty_lists (lines_of text) init) as [_ Hi]; [done..|].
  rewrite (lookup_of_recorded _ p) by apply Hi.
  by rewrite fold_lines_io.
Qed.

Lemma fold_lines_pids lines : ∀ st,
  pids (data (fold_lines st lines))
  = pids (data st) ∪ list_to_set (event_pids lines).
Proof.
  induction lines as [|l lines IH]; intros st.
  - simpl. apply set_eq. intros x. rewrite elem_of_union, elem_of_empty. tauto.
  - rewrite fold_lines_cons, IH. unfold event_pids. simpl.
    pose proof (classify_nonneg l) as Hnn.
    destruct (classify l) as [t|q|q|q|]; simpl in *; try done.
    + rewrite bool_decide_eq_true_2 by lia. simpl.
      apply set_eq. intros x.
      rewrite !elem_of_union, elem_of_singleton. tauto.
    + apply set_eq. intros x.
      rewrite !elem_of_union, elem_of_singleton. tauto.
    + apply set_eq. intros x.
      rewrite !elem_of_union, elem_of_singleton. tauto.
Qed.

(** X4: [pids] is exactly the set of PIDs announced by the running-,
    waiting- and ready-lines of the log: nothing else gets in and no
    announced PID is left out (a text with an oversized number returns no
    trace). *)
Theorem parse_output_pids_exact (text : string) :
  if within_limit (lines_of text)
  then ∃ d, parse_output text = Ok d
         ∧ ∀ p, p ∈ pids d ↔ p ∈ event_pids (lines_of text)
  else parse_output text = Raise ValueError.
Proof.
  rewrite parse_output_cases. destruct (within_limit (lines_of text)); [|done].
  eexists. split; [done|]. intros p.
  rewrite fold_lines_pids. simpl.
  rewrite elem_of_union, elem_of_empty, elem_of_list_to_set. tauto.
Qed.

Lemma Forall_le_trans (a b : Z) (l : list Z) :
  a ≤ b → Forall (Z.le b) l → Forall (Z.le a) l.
Proof. intros Hab Hl. eapply Forall_impl; [exact Hl|]. intros x Hx. simpl in *. lia. Qed.

Lemma running_ticks_sorted p lines : ∀ t,
  StronglySorted Z.le (t :: announced_ticks lines) →
  StronglySorted Z.le (t :: running_ticks p (attributed t lines)).
Proof.
  induction lines as [|l lines IH]; intros t Hs.
  - repeat constructor.
  - rewrite announced_ticks_cons in Hs. rewrite attributed_cons.
    destruct (classify l) as [t'|q|q|q|]; try by apply IH.
    + apply StronglySorted_inv in Hs as [Hs Hall].
      apply Forall_cons in Hall as [Htt' _].
      apply IH, StronglySorted_inv in Hs as [Hs' Hall'].
      constructor; [done|]. by eapply Forall_le_trans.
    + apply IH, StronglySorted_inv in Hs as [Hs' Hall'].
      unfold running_ticks. simpl. case_bool_decide.
      * constructor; [by constructor|]. by constructor.
      * by constructor.
Qed.

Lemma waiting_ticks_sorted p lines : ∀ t,
  StronglySorted Z.le (t :: announced_ticks lines) →
  StronglySorted Z.le (t :: waiting_ticks p (attributed t lines)).
Proof.
  induction lines as [|l lines IH]; intros t Hs.
  - repeat constructor.
  - rewrite announced_ticks_cons in Hs. rewrite attributed_cons.
    destruct (classify l) as [t'|q|q|q|]; try by apply IH.
    + apply StronglySorted_inv in Hs as [Hs Hall].
      apply Forall_cons in Hall as [Htt' _].
      apply IH, StronglySorted_inv in Hs as [Hs' Hall'].
      constructor; [done|]. by eapply Forall_le_trans.
    + apply IH, StronglySorted_inv in Hs as [Hs' Hall'].
      unfold waiting_ticks. simpl. case_bool_decide.
      * constructor; [by constructor|]. by constructor.
      * by constructor.
Qed.

Lemma announced_ticks_nonneg lines : Forall (Z.le 0) (announced_ticks lines).
Proof.
  induction lines as [|l lines IH]; [constructor|].
  rewrite announced_ticks_cons. pose proof (classify_nonneg l) as Hnn.
  destruct (classify l); simpl in *; try done. by constructor.
Qed.

(** X5: when the marker lines of a log announce their ticks in
    non-decreasing order, every list recorded in [cpu] and in [io] is in
    non-decreasing order (a text with an oversized number returns no
    trace). *)
Theorem parse_output_sorted_ticks (text : string) :
  Sorted Z.le (announced_ticks (lines_of text)) →
  if within_limit (lines_of text)
  then ∃ d, parse_output text = Ok d
         ∧ (∀ p l, cpu d !! p = Some l → StronglySorted Z.le l)
         ∧ (∀ p l, io d !! p = Some l → StronglySorted Z.le l)
  else parse_output text = Raise ValueError.
Proof.
  intros Hs. rewrite parse_output_cases.
  destruct (within_limit (lines_of text)); [|done].
  eexists. split; [done|].
  set (lines := lines_of text) in *.
  assert (Hs0 : StronglySorted Z.le (0 :: announced_ticks lines)).
  { constructor; [by apply Sorted_StronglySorted; [apply _|]|].
    apply announced_ticks_nonneg. }
  split; intros p l Hl.
  - pose proof (fold_lines_cpu p lines init) as Hrec.
    unfold recorded at 1 in Hrec. rewrite Hl in Hrec. simpl in Hrec. subst l.
    pose proof (running_ticks_sorted p lines 0 Hs0) as H1.
    apply StronglySorted_inv in H1 as [H1 _]. exact H1.
  - pose proof (fold_lines_io p lines init) as Hrec.
    unfold recorded at 1 in Hrec. rewrite Hl in Hrec. simpl in Hrec. subst l.
    pose proof (waiting_ticks_sorted p lines 0 Hs0) as H1.
    apply StronglySorted_inv in H1 as [H1 _]. exact H1.
Qed.

Lemma parse_output_sorted_ticks_witness :
  ∃ d, parse_output scenario_A = Ok d
    ∧ (∀ p l, cpu d !! p = Some l → StronglySorted Z.le l)
    ∧ (∀ p l, io d !! p = Some l → StronglySorted Z.le l).
Proof.
  assert (Hs : Sorted Z.le (announced_ticks (lines_of scenario_A))).
  { vm_compute. repeat constructor; discriminate. }
  pose proof (parse_output_sorted_ticks scenario_A Hs) as H.
  assert (E : within_limit (lines_of scenario_A) = true)
    by (vm_compute; reflexivity).
  rewrite E in H. exact H.
Defined.

(** ** [readlines] *)

Lemma readlines_nil s : readlines s = [] → s = [].
Proof.
  destruct s as [|c s]; [done|]. simpl.
  destruct (ascii_dec c newline); [done|]. by destruct (readlines s).
Qed.

(** X6: the lines returned by [readlines] put end to end give the text
    back: no character is dropped, added or moved. *)
Theorem readlines_concat (s : list ascii) : mjoin (readlines s) = s.
Proof.
  induction s as [|c s IH]; [done|]. simpl.
  destruct (ascii_dec c newline) as [->|Hc].
  - simpl. by rewrite IH.
  - destruct (readlines s) as [|l ls] eqn:E.
    + apply readlines_nil in E. by subst.
    + simpl in *. by rewrite IH.
Qed.

(** X7: every line returned by [readlines] is non-empty and has a newline
    at its end or nowhere; only the last line of the text can be without
    a newline. *)
Theorem readlines_line_shape (s : list ascii) (i : nat) (l : list ascii) :
  readlines s !! i = Some l →
  ∃ body, (newline ∉ body)
    ∧ (l = body ++ [newline]
       ∨ (l = body ∧ body ≠ [] ∧ S i = length (readlines s))).
Proof.
  revert i l. induction s as [|c s IH]; intros i l; [done|]. simpl.
  destruct (ascii_dec c newline) as [->|Hc].
  - destruct i as [|i]; simpl.
    + intros [= <-]. exists []. split; [apply not_elem_of_nil|by left].
    + intros Hl. destruct (IH i l Hl) as (body & Hb & [->|(-> & Hne & Hlen)]);
        exists body; (split; [done|]); [by left|right].
      by rewrite Hlen.
  - destruct (readlines s) as [|l0 ls] eqn:E.
    + destruct i as [|i]; [|done]. intros [= <-]. exists [c].
      split; [intros Hin%list_elem_of_singleton; congruence|]. by right.
    + destruct i as [|i]; simpl.
      * intros [= <-].
        destruct (IH 0%nat l0 eq_refl) as (body & Hb & [->|(-> & Hne & Hlen)]);
          exists (c :: body);
          (split; [intros [?|?]%elem_of_cons; [congruence|done]|]);
          [by left|by right].
      * intros Hl.
        destruct (IH (S i) l Hl) as (body & Hb & [->|(-> & Hne & Hlen)]);
          exists body; (split; [done|]); [by left|by right].
Qed.

Lemma readlines_line_shape_witness :
  ∃ body, (newline ∉ body)
    ∧ (line_of "ready pid: 1" ++ [newline] = body ++ [newline]
       ∨ (line_of "ready pid: 1" ++ [newline] = body ∧ body ≠ []
          ∧ 7%nat = length (readlines (list_ascii_of_string scenario_A)))).
Proof.
  apply (readlines_line_shape (list_ascii_of_string scenario_A) 6).
  vm_compute. reflexivity.
Defined.

Lemma readlines_snoc_newline_app (s s2 : list ascii) :
  readlines ((s ++ [newline]) ++ s2)
  = readlines (s ++ [newline]) ++ readlines s2.
Proof.
  induction s as [|c s IH]; [done|]. simpl.
  destruct (ascii_dec c newline) as [->|Hc].
  - by rewrite IH.
  - rewrite IH. destruct (readlines (s ++ [newline])) as [|l ls] eqn:E; [|done].
    apply readlines_nil in E. by destruct s.
Qed.

Lemma readlines_cons_not_nil c s : readlines (c :: s) ≠ [].
Proof. intros H. by apply readlines_nil in H. Qed.

(** A first text that ends in a character other than a newline: its last
    line goes on into the second text. *)
Lemma readlines_snoc_other_app (s : list ascii) (c : ascii) (s2 : list ascii) :
  c ≠ newline → s2 ≠ [] →
  ∃ front l1 l2 ls2,
    readlines (s ++ [c]) = front ++ [l1]
    ∧ readlines s2 = l2 :: ls2
    ∧ readlines ((s ++ [c]) ++ s2) = front ++ [l1 ++ l2] ++ ls2.
Proof.
  intros Hc Hs2.
  destruct (readlines s2) as [|l2 ls2] eqn:E2; [by apply readlines_nil in E2|].
  induction s as [|a s IH].
  - exists [], [c], l2, ls2. simpl.
    destruct (ascii_dec c newline); [done|]. by rewrite E2.
  - destruct IH as (front & l1 & l2' & ls2' & H1 & [= <- <-] & H3).
    simpl. destruct (ascii_dec a newline) as [->|Ha].
    + exists ([newline] :: front), l1, l2, ls2. by rewrite H1, H3.
    + rewrite H1, H3. destruct front as [|f front]; simpl.
      * by exists [], (a :: l1), l2, ls2.
      * by exists ((a :: f) :: front), l1, l2, ls2.
Qed.

(** X8: a text that ends in a newline is split on its own: the lines of
    such a text followed by a second text are the lines of the first
    followed by the lines of the second; when the first text ends in
    another character, its last line and the first line of the second text
    are one line. *)
Theorem readlines_app_newline (s s2 : list ascii) (c : ascii) :
  readlines ((s ++ [newline]) ++ s2)
  = readlines (s ++ [newline]) ++ readlines s2
  ∧ (c ≠ newline → s2 ≠ [] →
     ∃ front l1 l2 ls2,
       readlines (s ++ [c]) = front ++ [l1]
       ∧ readlines s2 = l2 :: ls2
       ∧ readlines ((s ++ [c]) ++ s2) = front ++ [l1 ++ l2] ++ ls2).
Proof.
  split; [apply readlines_snoc_newline_app|apply readlines_snoc_other_app].
Qed.

Lemma readlines_app_newline_witness :
  readlines ((line_of "a" ++ [newline]) ++ line_of "bc")
  = readlines (line_of "a" ++ [newline]) ++ readlines (line_of "bc")
  ∧ ∃ front l1 l2 ls2,
      readlines (line_of "a" ++ ["b"%char]) = front ++ [l1]
      ∧ readlines (line_of "bc") = l2 :: ls2
      ∧ readlines ((line_of "a" ++ ["b"%char]) ++ line_of "bc")
        = front ++ [l1 ++ l2] ++ ls2.
Proof.
  destruct (readlines_app_newline (line_of "a") (line_of "bc") "b")
    as [H1 H2].
  split; [exact H1|]. apply H2; discriminate.
Defined.

Lemma list_ascii_of_string_append a b :
  list_ascii_of_string (String.append a b)
  = list_ascii_of_string a ++ list_ascii_of_string b.
Proof. induction a as [|c a IH]; [done|]. simpl. by rewrite IH. Qed.

Lemma fold_lines_app st l1 l2 :
  fold_lines st (l1 ++ l2) = fold_lines (fold_lines st l1) l2.
Proof. apply foldl_app. Qed.

(** X9: appending text to a log that ends in a newline only adds to the
    trace: [pids] grows, [max_time] does not decrease, and what [cpu] and
    [io] recorded for a PID stays as the beginning of what they record
    now (when the longer text has an oversized number it returns no
    trace). *)
Theorem parse_output_extends (body text2 : string) :
  let text1 := String.append body (String newline EmptyString) in
  if within_limit (lines_of (String.append text1 text2))
  then ∃ d1 d2, parse_output text1 = Ok d1
         ∧ parse_output (String.append text1 text2) = Ok d2
         ∧ pids d1 ⊆ pids d2
         ∧ max_time d1 ≤ max_time d2
         ∧ (∀ p, recorded (cpu d1) p `prefix_of` recorded (cpu d2) p)
         ∧ (∀ p, recorded (io d1) p `prefix_of` recorded (io d2) p)
  else parse_output (String.append text1 text2) = Raise ValueError.
Proof.
  intros text1. rewrite !parse_output_cases.
  assert (Hlines : lines_of (String.append text1 text2)
                   = lines_of text1 ++ lines_of text2).
  { unfold lines_of, text1. rewrite !list_ascii_of_string_append. simpl.
    apply readlines_snoc_newline_app. }
  rewrite Hlines, within_limit_app.
  destruct (within_limit (lines_of text1)); [|done].
  destruct (within_limit (lines_of text2)); [|done]. simpl.
  do 2 eexists. split; [done|]. split; [done|].
  rewrite fold_lines_app.
  set (st1 := fold_lines init (lines_of text1)).
  assert (HI : Inv st1) by apply fold_lines_init_Inv.
  split; [|split; [|split]].
  - rewrite fold_lines_pids. apply union_subseteq_l.
  - rewrite fold_lines_max_time by (pose proof (inv_time _ HI); lia). lia.
  - intros p. rewrite fold_lines_cpu. by eexists.
  - intros p. rewrite fold_lines_io. by eexists.
Qed.

(** ** Characters a match cannot do without *)

Lemma requires_cons c it p :
  requires c (it :: p)
  ↔ it = Re.Item (Re.Lit c) Re.One false
    ∨ it = Re.Item (Re.Lit c) Re.Plus false
    ∨ requires c p.
Proof. unfold requires. rewrite !elem_of_cons. intuition congruence. Qed.

Lemma atom_matches_Lit c c0 : Re.atom_matches (Re.Lit c) c0 = true → c0 = c.
Proof. simpl. by destruct (ascii_dec c c0). Qed.

Lemma elem_of_drop_inv {A} (x : A) n (l : list A) : x ∈ drop n l → x ∈ l.
Proof.
  intros H. rewrite <- (take_drop n l). apply elem_of_app. by right.
Qed.

Lemma match_here_requires c p :
  requires c p →
  ∀ s g g', Re.match_here p s g = Some g' → c ∈ s.
Proof.
  induction p as [|[a q cap] p IH]; intros Hreq s g g' H.
  { destruct Hreq as [Hreq|Hreq]; by apply elem_of_nil in Hreq. }
  apply requires_cons in Hreq. simpl in H. destruct q.
  - destruct s as [|c0 s]; [done|].
    destruct (Re.atom_matches a c0) eqn:Ha; [|done].
    destruct Hreq as [[= -> ->]|[[=]|Hreq]].
    + apply atom_matches_Lit in Ha as ->. by left.
    + right. by eapply IH.
  - destruct (Re.run_length a s <? 0)%nat; [done|].
    apply ReFacts.try_counts_Some in H as (m & _ & H); [|lia].
    destruct Hreq as [[=]|[[=]|Hreq]].
    eapply elem_of_drop_inv, IH; done.
  - destruct (Re.run_length a s <? 1)%nat eqn:Hlt; [done|].
    apply Nat.ltb_ge in Hlt.
    apply ReFacts.try_counts_Some in H as (m & _ & H); [|lia].
    destruct Hreq as [[=]|[[= -> ->]|Hreq]].
    + destruct s as [|c0 s]; simpl in Hlt; [lia|].
      destruct (ascii_dec c c0) as [->|]; [by left|lia].
    + eapply elem_of_drop_inv, IH; done.
Qed.

Lemma search_requires c p s g :
  requires c p → Re.search p s = Some g → c ∈ s.
Proof.
  intros Hreq. induction s as [|c0 s IH]; simpl.
  - destruct (Re.match_here p [] []) eqn:E; [|done].
    intros _. by eapply match_here_requires.
  - destruct (Re.match_here p (c0 :: s) []) eqn:E.
    + intros _. by eapply match_here_requires.
    + intros H. right. by apply IH.
Qed.

Lemma search_None_without c p s :
  requires c p → c ∉ s → Re.search p s = None.
Proof.
  intros Hreq Hc. destruct (Re.search p s) as [g|] eqn:E; [|done].
  exfalso. by eapply Hc, search_requires.
Qed.

Ltac solve_requires :=
  first
    [ solve [left;
             repeat first [apply list_elem_of_here | apply list_elem_of_further]]
    | solve [right;
             repeat first [apply list_elem_of_here | apply list_elem_of_further]] ].

Lemma requires_colon :
  requires ":" Re.time_pattern ∧ requires ":" Re.running_pattern
  ∧ requires ":" Re.waiting_pattern ∧ requires ":" Re.ready_pattern.
Proof. repeat split; solve_requires. Qed.

Lemma requires_star : requires "*" Re.time_pattern.
Proof. solve_requires. Qed.

Lemma requires_u : requires "u" Re.running_pattern.
Proof. solve_requires. Qed.

Lemma requires_w : requires "w" Re.waiting_pattern.
Proof. solve_requires. Qed.

(** X10: a line without a colon is ignored: from any state the loop body
    returns the state unchanged. *)
Theorem line_without_colon_ignored (st : Locals) (line : list ascii) :
  ":"%char ∉ line → loop_body st line = Ok st.
Proof.
  intros Hc. destruct requires_colon as (Ht & Hr & Hw & Hy).
  apply loop_body_unrecognized. unfold unrecognized.
  by rewrite !(search_None_without ":") by done.
Qed.

Lemma line_without_colon_ignored_witness :
  loop_body init (line_of "***** TIME 7 *****") = Ok init.
Proof.
  apply line_without_colon_ignored.
  rewrite list_elem_of_In. vm_compute. intuition discriminate.
Defined.

(** X11: a line without [*] is never taken for a tick marker: it leaves
    [current_time] and [max_time] as they were (when its number is
    oversized [int] raises and no state is returned). *)
Theorem line_without_star_keeps_tick (st : Locals) (line : list ascii) :
  "*"%char ∉ line →
  if oversized line
  then loop_body st line = Raise ValueError
  else ∃ st', loop_body st line = Ok st'
         ∧ current_time st' = current_time st
         ∧ max_time (data st') = max_time (data st).
Proof.
  intros Hc. rewrite loop_body_cases. destruct (oversized line); [done|].
  eexists. split; [done|].
  unfold classify.
  rewrite (search_None_without "*") by (apply requires_star || done).
  destruct (Re.search Re.running_pattern line) as [g|].
  { unfold int_or. destruct (int g) as [p|]; simpl; [|done].
    by destruct (bool_decide (p ≠ -1)). }
  destruct (Re.search Re.waiting_pattern line) as [g|].
  { unfold int_or. by destruct (int g). }
  destruct (Re.search Re.ready_pattern line) as [g|]; [|done].
  unfold int_or. by destruct (int g).
Qed.

Lemma line_without_star_keeps_tick_witness :
  ∃ st', loop_body init (line_of "TIME: 9 running pid: 4") = Ok st'
    ∧ current_time st' = current_time init
    ∧ max_time (data st') = max_time (data init).
Proof.
  assert (Hs : "*"%char ∉ line_of "TIME: 9 running pid: 4").
  { rewrite list_elem_of_In. vm_compute. intuition discriminate. }
  pose proof (line_without_star_keeps_tick init _ Hs) as H.
  assert (E : oversized (line_of "TIME: 9 running pid: 4") = false)
    by (vm_compute; reflexivity).
  rewrite E in H. exact H.
Defined.

(** ** Lines of the documented shapes are recognized *)

Lemma try_counts_first {R} (k : nat → option R) lo n r :
  k n = Some r → Re.try_counts k lo n = Some r.
Proof. intros H. destruct n; simpl; by rewrite H. Qed.

Lemma run_length_app a ws rest :
  forallb (Re.atom_matches a) ws = true → stops a rest →
  Re.run_length a (ws ++ rest) = length ws.
Proof.
  intros Hws Hrest. induction ws as [|c ws IH].
  - destruct rest as [|c rest]; [done|]. unfold stops in Hrest.
    cbn [app Re.run_length length]. by rewrite Hrest.
  - cbn [forallb] in Hws. apply andb_prop in Hws as [Hc Hws].
    cbn [app Re.run_length length]. by rewrite Hc, IH.
Qed.

Lemma match_here_lits cs p s g :
  Re.match_here (lits cs ++ p) (cs ++ s) g = Re.match_here p s g.
Proof.
  induction cs as [|c cs IH]; [done|]. simpl.
  destruct (ascii_dec c c); [|done]. apply IH.
Qed.

Lemma match_here_star a ws rest p g r :
  forallb (Re.atom_matches a) ws = true → stops a rest →
  Re.match_here p rest g = Some r →
  Re.match_here (Re.Item a Re.Star false :: p) (ws ++ rest) g = Some r.
Proof.
  intros Hws Hrest H. simpl. rewrite run_length_app by done.
  apply try_counts_first. by rewrite drop_app_length.
Qed.

Lemma match_here_plus a ws rest p g r :
  forallb (Re.atom_matches a) ws = true → ws ≠ [] → stops a rest →
  Re.match_here p rest g = Some r →
  Re.match_here (Re.Item a Re.Plus false :: p) (ws ++ rest) g = Some r.
Proof.
  intros Hws Hne Hrest H. simpl. rewrite run_length_app by done.
  destruct ws as [|c ws]; [done|]. simpl length.
  replace (S (length ws) <? 1)%nat with false by (symmetry; apply Nat.ltb_ge; lia).
  apply try_counts_first.
  change (S (length ws)) with (length (c :: ws)). by rewrite drop_app_length.
Qed.

Lemma match_here_group_plus a ds rest p g r :
  forallb (Re.atom_matches a) ds = true → ds ≠ [] → stops a rest →
  Re.match_here p rest ds = Some r →
  Re.match_here (Re.Item a Re.Plus true :: p) (ds ++ rest) g = Some r.
Proof.
  intros Hds Hne Hrest H. simpl. rewrite run_length_app by done.
  destruct ds as [|c ds]; [done|]. simpl length.
  replace (S (length ds) <? 1)%nat with false by (symmetry; apply Nat.ltb_ge; lia).
  apply try_counts_first.
  change (S (length ds)) with (length (c :: ds)).
  by rewrite drop_app_length, take_app_length.
Qed.

Lemma match_here_last_plus a s g :
  (1 ≤ Re.run_length a s)%nat →
  Re.match_here [Re.Item a Re.Plus false] s g = Some g.
Proof.
  intros H. simpl.
  replace (Re.run_length a s <? 1)%nat with false by (symmetry; apply Nat.ltb_ge; lia).
  by apply try_counts_first.
Qed.

Lemma search_here p s g : Re.match_here p s [] = Some g → Re.search p s = Some g.
Proof. intros H. destruct s; simpl; by rewrite H. Qed.

Lemma digit_not_space c : Re.is_digit c = true → Re.is_space c = false.
Proof.
  unfold Re.is_digit, Re.is_space. intros H.
  apply andb_prop in H as [H1 H2].
  apply Nat.leb_le in H1. apply Nat.leb_le in H2.
  repeat match goal with
         | |- _ || _ = false => apply orb_false_intro
         | |- _ && _ = false => apply andb_false_iff
         end.
  - right. apply Nat.leb_gt. lia.
  - right. apply Nat.leb_gt. lia.
  - apply Nat.eqb_neq. lia.
  - apply Nat.eqb_neq. lia.
Qed.

Lemma digits_stop_space ds rest : digits ds → stops Re.Space (ds ++ rest).
Proof.
  intros [Hne Hd]. destruct ds as [|c ds]; [done|]. simpl in *.
  apply andb_prop in Hd as [Hc _]. by apply digit_not_space.
Qed.

(** The match of an announcement pattern at the start of a line of the
    shape [<ws><keyword><ws'><ds><rest>]. *)
Lemma match_here_announcement keyword ws ws' ds rest :
  blanks ws → blanks ws' → digits ds → stops Re.Digit rest →
  stops Re.Space (line_of keyword ++ ws' ++ ds ++ rest) →
  Re.match_here
    ([Re.Item Re.Space Re.Star false] ++ Re.lit keyword
       ++ [Re.Item Re.Space Re.Star false] ++ [Re.Item Re.Digit Re.Plus true])
    (announcement_line keyword ws ws' ds rest) [] = Some ds.
Proof.
  intros Hws Hws' [Hne Hds] Hrest Hkw. unfold announcement_line.
  simpl app at 1. apply match_here_star; [done..|].
  change (Re.lit keyword) with (lits (line_of keyword)).
  rewrite match_here_lits.
  apply match_here_star; [done|by apply digits_stop_space|].
  apply match_here_group_plus; done.
Qed.

Lemma loop_body_running st line g p :
  Re.search Re.time_pattern line = None →
  Re.search Re.running_pattern line = Some g → int g = Ok p →
  loop_body st line = Ok (apply_line (Running p) st).
Proof.
  intros Ht Hr Hp. unfold loop_body. rewrite Ht, Hr, Hp. simpl.
  destruct (bool_decide (p ≠ -1)); [|done]. by rewrite setdefault_append.
Qed.

Lemma loop_body_waiting st line g p :
  Re.search Re.time_pattern line = None →
  Re.search Re.running_pattern line = None →
  Re.search Re.waiting_pattern line = Some g → int g = Ok p →
  loop_body st line = Ok (apply_line (Waiting p) st).
Proof.
  intros Ht Hr Hw Hp. unfold loop_body. rewrite Ht, Hr, Hw, Hp. simpl.
  by rewrite setdefault_append.
Qed.

Lemma loop_body_ready st line g p :
  Re.search Re.time_pattern line = None →
  Re.search Re.running_pattern line = None →
  Re.search Re.waiting_pattern line = None →
  Re.search Re.ready_pattern line = Some g → int g = Ok p →
  loop_body st line = Ok (apply_line (Ready p) st).
Proof.
  intros Ht Hr Hw Hy Hp. unfold loop_body. by rewrite Ht, Hr, Hw, Hy, Hp.
Qed.

(** X12: a line [<blanks>running pid:<blanks><digits><rest>] with at most
    4300 digits, where [rest] does not go on with a digit and the line has
    no [*], records the current tick at the end of the [cpu] list of the
    PID written in the digits, adds that PID to [pids] and changes neither
    [io] nor the current tick. *)
Theorem running_line_recorded (st : Locals) (ws ws' ds rest : list ascii) :
  blanks ws → blanks ws' → digits ds →
  (length ds ≤ int_max_str_digits)%nat → stops Re.Digit rest →
  "*"%char ∉ announcement_line "running pid:" ws ws' ds rest →
  ∃ p st', int ds = Ok p
    ∧ loop_body st (announcement_line "running pid:" ws ws' ds rest) = Ok st'
    ∧ recorded (cpu (data st')) p
      = recorded (cpu (data st)) p ++ [current_time st]
    ∧ pids (data st') = {[p]} ∪ pids (data st)
    ∧ io (data st') = io (data st)
    ∧ current_time st' = current_time st.
Proof.
  intros Hws Hws' Hds Hlen Hrest Hstar.
  destruct (int_within_limit ds Hds Hlen) as (p & Hp & Hnn).
  exists p. eexists. split; [done|].
  split; [apply (loop_body_running _ _ ds p); [|apply search_here|done]|].
  - by apply (search_None_without "*"); [apply requires_star|].
  - by apply (match_here_announcement "running pid:").
  - simpl. rewrite bool_decide_eq_true_2 by lia. simpl.
    rewrite recorded_appended, bool_decide_eq_true_2 by done. done.
Qed.

Lemma running_line_recorded_witness :
  ∃ p st', int (line_of "12") = Ok p
    ∧ loop_body init
        (announcement_line "running pid:" [] (line_of " ") (line_of "12")
           [newline]) = Ok st'
    ∧ recorded (cpu (data st')) p = recorded (cpu (data init)) p ++ [current_time init]
    ∧ pids (data st') = {[p]} ∪ pids (data init)
    ∧ io (data st') = io (data init)
    ∧ current_time st' = current_time init.
Proof.
  apply (running_line_recorded init [] (line_of " ") (line_of "12") [newline]).
  - reflexivity.
  - reflexivity.
  - split; [discriminate|reflexivity].
  - apply Nat.leb_le. reflexivity.
  - reflexivity.
  - rewrite list_elem_of_In. vm_compute. intuition discriminate.
Defined.

(** X13: a line [<blanks>waiting pid:<blanks><digits><rest>] with at most
    4300 digits, where [rest] does not go on with a digit and the line has
    neither [*] nor [u], records the current tick at the end of the [io]
    list of the PID, adds the PID to [pids] and changes neither [cpu] nor
    the current tick. *)
Theorem waiting_line_recorded (st : Locals) (ws ws' ds rest : list ascii) :
  blanks ws → blanks ws' → digits ds →
  (length ds ≤ int_max_str_digits)%nat → stops Re.Digit rest →
  "*"%char ∉ announcement_line "waiting pid:" ws ws' ds rest →
  "u"%char ∉ announcement_line "waiting pid:" ws ws' ds rest →
  ∃ p st', int ds = Ok p
    ∧ loop_body st (announcement_line "waiting pid:" ws ws' ds rest) = Ok st'
    ∧ recorded (io (data st')) p
      = recorded (io (data st)) p ++ [current_time st]
    ∧ pids (data st') = {[p]} ∪ pids (data st)
    ∧ cpu (data st') = cpu (data st)
    ∧ current_time st' = current_time st.
Proof.
  intros Hws Hws' Hds Hlen Hrest Hstar Hu.
  destruct (int_within_limit ds Hds Hlen) as (p & Hp & Hnn).
  exists p. eexists. split; [done|].
  split; [apply (loop_body_waiting _ _ ds p); [| |apply search_here|done]|].
  - by apply (search_None_without "*"); [apply requires_star|].
  - by apply (search_None_without "u"); [apply requires_u|].
  - by apply (match_here_announcement "waiting pid:").
  - simpl. rewrite recorded_appended, bool_decide_eq_true_2 by done. done.
Qed.

Lemma waiting_line_recorded_witness :
  ∃ p st', int (line_of "7") = Ok p
    ∧ loop_body init
        (announcement_line "waiting pid:" (line_of "  ") [] (line_of "7")
           [newline]) = Ok st'
    ∧ recorded (io (data st')) p = recorded (io (data init)) p ++ [current_time init]
    ∧ pids (data st') = {[p]} ∪ pids (data init)
    ∧ cpu (data st') = cpu (data init)
    ∧ current_time st' = current_time init.
Proof.
  apply (waiting_line_recorded init (line_of "  ") [] (line_of "7") [newline]).
  - reflexivity.
  - reflexivity.
  - split; [discriminate|reflexivity].
  - apply Nat.leb_le. reflexivity.
  - reflexivity.
  - rewrite list_elem_of_In. vm_compute. intuition discriminate.
  - rewrite list_elem_of_In. vm_compute. intuition discriminate.
Defined.

(** X14: a line [<blanks>ready pid:<blanks><digits><rest>] with at most
    4300 digits, where [rest] does not go on with a digit and the line has
    none of [*], [u], [w], adds the PID to [pids] and to the scratch list
    [current_ready], and leaves [cpu], [io], [ready] and the current tick as
    they were. *)
Theorem ready_line_only_adds_pid (st : Locals) (ws ws' ds rest : list ascii) :
  blanks ws → blanks ws' → digits ds →
  (length ds ≤ int_max_str_digits)%nat → stops Re.Digit rest →
  "*"%char ∉ announcement_line "ready pid:" ws ws' ds rest →
  "u"%char ∉ announcement_line "ready pid:" ws ws' ds rest →
  "w"%char ∉ announcement_line "ready pid:" ws ws' ds rest →
  ∃ p st', int ds = Ok p
    ∧ loop_body st (announcement_line "ready pid:" ws ws' ds rest) = Ok st'
    ∧ pids (data st') = {[p]} ∪ pids (data st)
    ∧ current_ready st' = current_ready st ++ [p]
    ∧ cpu (data st') = cpu (data st)
    ∧ io (data st') = io (data st)
    ∧ ready (data st') = ready (data st)
    ∧ current_time st' = current_time st.
Proof.
  intros Hws Hws' Hds Hlen Hrest Hstar Hu Hw.
  destruct (int_within_limit ds Hds Hlen) as (p & Hp & Hnn).
  exists p. eexists. split; [done|].
  split; [apply (loop_body_ready _ _ ds p); [| | |apply search_here|done]|done].
  - by apply (search_None_without "*"); [apply requires_star|].
  - by apply (search_None_without "u"); [apply requires_u|].
  - by apply (search_None_without "w"); [apply requires_w|].
  - by apply (match_here_announcement "ready pid:").
Qed.

Lemma ready_line_only_adds_pid_witness :
  ∃ p st', int (line_of "3") = Ok p
    ∧ loop_body init
        (announcement_line "ready pid:" [] (line_of " ") (line_of "3")
           [newline]) = Ok st'
    ∧ pids (data st') = {[p]} ∪ pids (data init)
    ∧ current_ready st' = current_ready init ++ [p]
    ∧ cpu (data st') = cpu (data init)
    ∧ io (data st') = io (data init)
    ∧ ready (data st') = ready (data init)
    ∧ current_time st' = current_time init.
Proof.
  apply (ready_line_only_adds_pid init [] (line_of " ") (line_of "3") [newline]).
  - reflexivity.
  - reflexivity.
  - split; [discriminate|reflexivity].
  - apply Nat.leb_le. reflexivity.
  - reflexivity.
  - rewrite list_elem_of_In. vm_compute. intuition discriminate.
  - rewrite list_elem_of_In. vm_compute. intuition discriminate.
  - rewrite list_elem_of_In. vm_compute. intuition discriminate.
Defined.

Lemma match_here_plus_fail a cap p c s g :
  Re.atom_matches a c = false →
  Re.match_here (Re.Item a Re.Plus cap :: p) (c :: s) g = None.
Proof. intros H. cbn [Re.match_here Re.run_length]. by rewrite H. Qed.

Lemma search_time_skip pre s :
  "*"%char ∉ pre →
  Re.search Re.time_pattern (pre ++ s) = Re.search Re.time_pattern s.
Proof.
  induction pre as [|c pre IH]; intros Hpre; [done|].
  apply not_elem_of_cons in Hpre as [Hc Hpre].
  cbn [app Re.search].
  assert (Re.match_here Re.time_pattern (c :: pre ++ s) [] = None) as ->.
  { apply match_here_plus_fail. unfold Re.atom_matches.
    by destruct (ascii_dec "*" c). }
  by apply IH.
Qed.

Lemma forallb_stars k :
  forallb (Re.atom_matches (Re.Lit "*")) (stars k) = true.
Proof. induction k as [|k IH]; [done|]. simpl. apply IH. Qed.

Lemma search_marker_line pre k ds m rest :
  "*"%char ∉ pre → (1 ≤ k)%nat → (1 ≤ m)%nat → digits ds →
  Re.search Re.time_pattern (marker_line pre k ds m rest) = Some ds.
Proof.
  intros Hpre Hk Hm Hds.
  unfold marker_line. rewrite search_time_skip by done.
  apply search_here.
  change Re.time_pattern
    with (Re.Item (Re.Lit "*") Re.Plus false
            :: (lits (line_of " TIME: ")
                  ++ Re.Item Re.Digit Re.Plus true
                       :: (lits (line_of " ")
                             ++ [Re.Item (Re.Lit "*") Re.Plus false]))).
  apply match_here_plus;
    [apply forallb_stars|destruct k; [lia|done]|done|].
  rewrite match_here_lits.
  destruct Hds as [Hne Hd].
  apply match_here_group_plus; [done..|].
  rewrite match_here_lits.
  apply match_here_last_plus. destruct m; [lia|]. simpl. lia.
Qed.

(** X15: a line with a well-formed marker, [<k stars> TIME: <digits> <m
    stars>] with [k] and [m] at least 1 and at most 4300 digits, after a
    prefix without [*] and before anything, sets [current_time] to the
    number written in the digits and [max_time] to the larger of its old
    value and that number. *)
Theorem marker_line_recognized (st : Locals) (pre : list ascii) (k : nat)
    (ds : list ascii) (m : nat) (rest : list ascii) :
  "*"%char ∉ pre → (1 ≤ k)%nat → (1 ≤ m)%nat → digits ds →
  (length ds ≤ int_max_str_digits)%nat →
  ∃ t st', int ds = Ok t
    ∧ loop_body st (marker_line pre k ds m rest) = Ok st'
    ∧ current_time st' = t
    ∧ max_time (data st') = Z.max (max_time (data st)) t.
Proof.
  intros Hpre Hk Hm Hds Hlen.
  destruct (int_within_limit ds Hds Hlen) as (t & Ht & Hnn).
  pose proof (search_marker_line pre k ds m rest Hpre Hk Hm Hds) as Hsearch.
  exists t. eexists. split; [done|].
  split; [unfold loop_body; rewrite Hsearch, Ht; simpl; reflexivity|].
  done.
Qed.

Lemma marker_line_recognized_witness :
  ∃ t st', int (line_of "15") = Ok t
    ∧ loop_body init
        (marker_line (line_of "tick ") 5 (line_of "15") 5 [newline]) = Ok st'
    ∧ current_time st' = t
    ∧ max_time (data st') = Z.max (max_time (data init)) t.
Proof.
  apply (marker_line_recognized init (line_of "tick ") 5 (line_of "15") 5
           [newline]).
  - rewrite list_elem_of_In. vm_compute. intuition discriminate.
  - lia.
  - lia.
  - split; [discriminate|reflexivity].
  - apply Nat.leb_le. reflexivity.
Defined.

(** * Lines that change nothing *)

(** X23: a line that no pattern matches can be inserted anywhere in a log,
    or removed from it, without changing the outcome of the loop. *)
Theorem unrecognized_line_removable (st : Locals)
    (before after : list (list ascii)) (junk : list ascii) :
  unrecognized junk = true →
  run_lines st (before ++ junk :: after) = run_lines st (before ++ after).
Proof.
  intros Hj. rewrite !run_lines_cases, !within_limit_app, within_limit_cons.
  rewrite (unrecognized_not_oversized _ Hj). simpl.
  rewrite !fold_lines_app, fold_lines_cons.
  by rewrite (unrecognized_classify _ Hj).
Qed.

Lemma unrecognized_line_removable_witness :
  run_lines init ([line_of "running pid: 1"] ++ line_of "-- note --"
                    :: [line_of "waiting pid: 2"])
  = run_lines init ([line_of "running pid: 1"] ++ [line_of "waiting pid: 2"]).
Proof.
  apply unrecognized_line_removable. vm_compute. reflexivity.
Defined.

(** X24: a marker line repeated right after itself has the effect of the
    single line. *)
Theorem repeated_marker_idempotent (st : Locals) (line g : list ascii) :
  Re.search Re.time_pattern line = Some g →
  run_lines st [line; line] = run_lines st [line].
Proof.
  intros Hline. rewrite !run_lines_cases, !within_limit_cons.
  assert (Hsel : selected_group line = Some g).
  { unfold selected_group. by rewrite Hline. }
  pose proof (int_selected_group line g Hsel) as Hint.
  destruct (oversized line); [done|]. simpl.
  destruct Hint as (t & Ht & _).
  assert (Hc : classify line = TickMarker t).
  { unfold classify, int_or. by rewrite Hline, Ht. }
  rewrite Hc. simpl. by rewrite <- Z.max_assoc, Z.max_id.
Qed.

Lemma repeated_marker_idempotent_witness :
  run_lines init [line_of "***** TIME: 5 *****"; line_of "***** TIME: 5 *****"]
  = run_lines init [line_of "***** TIME: 5 *****"].
Proof.
  apply (repeated_marker_idempotent init (line_of "***** TIME: 5 *****")
           (line_of "5")).
  vm_compute. reflexivity.
Defined.

(** X25: a leading zero does not change the number read from a group of
    digits as long as the limit of 4300 digits is kept, so [running pid:
    007] and [running pid: 7] name the same PID; a zero that takes the
    group beyond the limit makes [int] raise. *)
Theorem int_leading_zero (ds : list ascii) :
  digits ds →
  int ("0"%char :: ds)
  = if (length ds <? int_max_str_digits)%nat then int ds
    else Raise ValueError.
Proof.
  intros [Hne Hd]. unfold int. destruct ds as [|c ds]; [done|].
  change (forallb Re.is_digit ("0"%char :: c :: ds))
    with (Re.is_digit "0" && forallb Re.is_digit (c :: ds)).
  rewrite Hd. cbn [andb].
  change (Re.is_digit "0") with true. cbn iota.
  change (length ("0"%char :: c :: ds)) with (S (length (c :: ds))).
  destruct (length (c :: ds) <? int_max_str_digits)%nat eqn:E.
  - apply Nat.ltb_lt in E.
    replace (int_max_str_digits <? S (length (c :: ds)))%nat with false
      by (symmetry; apply Nat.ltb_ge; lia).
    replace (int_max_str_digits <? length (c :: ds))%nat with false
      by (symmetry; apply Nat.ltb_ge; lia).
    reflexivity.
  - apply Nat.ltb_ge in E.
    by replace (int_max_str_digits <? S (length (c :: ds)))%nat with true
      by (symmetry; apply Nat.ltb_lt; lia).
Qed.

Lemma int_leading_zero_witness :
  int ("0"%char :: line_of "07") = int (line_of "07").
Proof.
  rewrite int_leading_zero by (split; [discriminate|reflexivity]).
  reflexivity.
Defined.

(** * Properties of the renderer *)

#[local] Set Warnings "-clear-no-such-hyp".

(** ** Running a list of statements *)

Lemma run_spec lib steps : ∀ h,
  ∃ cs rest, steps = (Ok <$> cs) ++ rest
    ∧ fst (run lib steps h) = h ++ cs
    ∧ (snd (run lib steps h) = Ok tt → rest = []).
Proof.
  induction steps as [|[c|e] steps IH]; intros h.
  - exists [], []. simpl. by rewrite app_nil_r.
  - simpl. destruct (raises lib h c) as [e|].
    + exists [c], steps. done.
    + destruct (IH (h ++ [c])) as (cs & rest & -> & Hfst & Hsnd).
      exists (c :: cs), rest. split; [done|]. split; [|done].
      by rewrite Hfst, <- app_assoc.
  - exists [], (Raise e :: steps). simpl. by rewrite app_nil_r.
Qed.

(** Every call made is a call of the list. *)
Lemma run_sound lib steps c : c ∈ fst (run lib steps []) → Ok c ∈ steps.
Proof.
  destruct (run_spec lib steps []) as (cs & rest & -> & -> & _). simpl.
  intros H. apply elem_of_app. left. by apply list_elem_of_fmap_2.
Qed.

(** A run that ends normally has made every call of the list. *)
Lemma run_complete lib steps :
  snd (run lib steps []) = Ok tt → steps = Ok <$> fst (run lib steps []).
Proof.
  destruct (run_spec lib steps []) as (cs & rest & -> & -> & Hrest).
  intros H. rewrite (Hrest H). simpl. by rewrite app_nil_r.
Qed.

Lemma run_complete_elem lib steps c :
  snd (run lib steps []) = Ok tt → Ok c ∈ steps → c ∈ fst (run lib steps []).
Proof.
  intros H Hc. rewrite (run_complete _ _ H) in Hc.
  apply list_elem_of_fmap in Hc as (c' & [= ->] & Hc). done.
Qed.

Lemma run_app lib s1 s2 h :
  run lib (s1 ++ s2) h
  = match run lib s1 h with
    | (h', Ok _) => run lib s2 h'
    | r => r
    end.
Proof.
  revert h. induction s1 as [|[c|e] s1 IH]; intros h; simpl; [done| |done].
  destruct (raises lib h c); [done|]. apply IH.
Qed.

(** The first statement, when it makes a call, is always reached. *)
Lemma run_first lib c steps :
  ∃ rest, fst (run lib (Ok c :: steps) []) = c :: rest.
Proof.
  simpl. destruct (raises lib [] c); [by exists []|].
  destruct (run_spec lib steps [c]) as (cs & rest & _ & -> & _). by exists cs.
Qed.

(** ** The statements of [draw_gantt] *)

Lemma sorted_pids_nil d : sorted_pids d = [] ↔ pids d = ∅.
Proof.
  split.
  - intros H. destruct (decide (pids d = ∅)) as [|Hne]; [done|].
    by apply sorted_pids_nonempty in Hne.
  - intros H. unfold sorted_pids. by rewrite H, elements_empty.
Qed.

Lemma script_nonempty (d : Data) (out : string) :
  pids d ≠ ∅ →
  script d out
  = [Ok (Subplots [Z.of_nat (length (sorted_pids d));
                   Z.of_nat (length (sorted_pids d));
                   max_queue_depth (ready d)])]
    ++ style_axis (max_time d + 2) 1 ++ style_axis (max_time d + 2) 2
    ++ style_axis (max_time d + 2) 3
    ++ pid_lane 1 "CPU Usage" (sorted_pids d) (cpu d)
    ++ pid_lane 2 "I/O Usage" (sorted_pids d) (io d)
    ++ ready_lane (ready d) (max_time d + 2)
    ++ finish out.
Proof.
  intros Hne. unfold script.
  destruct (sorted_pids d) as [|x ps] eqn:E; [|done].
  by apply sorted_pids_nil in E.
Qed.

Lemma elem_of_sorted_pids d p : p ∈ sorted_pids d ↔ p ∈ pids d.
Proof.
  unfold sorted_pids. rewrite merge_sort_Permutation. apply elem_of_elements.
Qed.

Lemma bind_Ok {A B} (r : res A) (k : A → res B) (b : B) :
  res_bind r k = Ok b ↔ ∃ a, r = Ok a ∧ k a = Ok b.
Proof.
  destruct r as [a|e]; simpl.
  - split; [by exists a|]. by intros (a' & [= <-] & H).
  - split; [done|]. by intros (a' & [=] & _).
Qed.

Lemma elem_of_box ax t row c :
  Ok c ∈ box ax t row
  ↔ ∃ y, int_sub_float row float_0_4 = Ok y
      ∧ (c = Rectangle t y ∨ c = AddPatch ax t y).
Proof.
  unfold box. rewrite !elem_of_cons, elem_of_nil.
  rewrite !(eq_comm (Ok c)), !bind_Ok. naive_solver.
Qed.

Lemma elem_of_lane_patches ax ps m c :
  Ok c ∈ lane_patches ax ps m
  ↔ ∃ p l t y, p ∈ ps ∧ m !! p = Some l ∧ t ∈ l
      ∧ int_sub_float p float_0_4 = Ok y
      ∧ (c = Rectangle t y ∨ c = AddPatch ax t y).
Proof.
  unfold lane_patches. rewrite list_elem_of_bind. split.
  - intros (p & Hc & Hp). destruct (m !! p) as [l|] eqn:E;
      [|by apply elem_of_nil in Hc].
    apply list_elem_of_bind in Hc as (t & Hc & Ht).
    apply elem_of_box in Hc as (y & Hy & Hc). by exists p, l, t, y.
  - intros (p & l & t & y & Hp & Hl & Ht & Hy & Hc). exists p. split; [|done].
    rewrite Hl. apply list_elem_of_bind. exists t. split; [|done].
    apply elem_of_box. by exists y.
Qed.

Lemma elem_of_pid_lane ax title ps m c :
  Ok c ∈ pid_lane ax title ps m
  ↔ c = SetTitle ax title ∨ c = SetYlabel ax "PID" ∨ c = SetYticks ax ps
    ∨ (∃ lo hi bottom top,
         py_min ps = Ok lo ∧ py_max ps = Ok hi
         ∧ int_sub_float lo float_0_5 = Ok bottom
         ∧ int_add_float hi float_0_5 = Ok top
         ∧ c = SetYlim ax bottom top)
    ∨ c = InvertYaxis ax
    ∨ (∃ p l t y, p ∈ ps ∧ m !! p = Some l ∧ t ∈ l
         ∧ int_sub_float p float_0_4 = Ok y
         ∧ (c = Rectangle t y ∨ c = AddPatch ax t y)).
Proof.
  unfold pid_lane.
  rewrite elem_of_app, !elem_of_cons, elem_of_nil, elem_of_lane_patches.
  rewrite !(eq_comm (Ok c)), !bind_Ok.
  repeat setoid_rewrite bind_Ok. naive_solver.
Qed.

Lemma elem_of_queue_patches t q c :
  Ok c ∈ queue_patches t q
  ↔ ∃ i p, q !! i = Some p
      ∧ ((∃ y, int_sub_float (Z.of_nat i) float_0_4 = Ok y
            ∧ (c = Rectangle t y ∨ c = AddPatch 3 t y))
         ∨ (∃ x s, int_add_float t float_0_5 = Ok x ∧ py_str p = Ok s
              ∧ c = Text x (Z.of_nat i) (String "P" s))).
Proof.
  unfold queue_patches. rewrite list_elem_of_join. split.
  - intros (l & Hc & Hl). apply elem_of_lookup_imap in Hl as (i & p & -> & Hq).
    exists i, p. split; [done|].
    apply elem_of_app in Hc as [Hc|Hc].
    + left. by apply elem_of_box.
    + right. apply list_elem_of_singleton in Hc. symmetry in Hc.
      apply bind_Ok in Hc as (x & Hx & Hc).
      apply bind_Ok in Hc as (s & Hs & [= <-]). by exists x, s.
  - intros (i & p & Hq & Hc). eexists.
    split; [|by eapply elem_of_lookup_imap_2]. apply elem_of_app.
    destruct Hc as [Hc|(x & s & Hx & Hs & ->)].
    + left. by apply elem_of_box.
    + right. apply list_elem_of_singleton. symmetry.
      apply bind_Ok. exists x. split; [done|].
      apply bind_Ok. by exists s.
Qed.

Lemma elem_of_queue_lane r n c :
  Ok c ∈ queue_lane r n
  ↔ ∃ t q i p, 0 ≤ t < n ∧ r !! t = Some q ∧ q !! i = Some p
      ∧ ((∃ y, int_sub_float (Z.of_nat i) float_0_4 = Ok y
            ∧ (c = Rectangle t y ∨ c = AddPatch 3 t y))
         ∨ (∃ x s, int_add_float t float_0_5 = Ok x ∧ py_str p = Ok s
              ∧ c = Text x (Z.of_nat i) (String "P" s))).
Proof.
  unfold queue_lane. rewrite list_elem_of_bind. split.
  - intros (t & Hc & Ht). apply elem_of_seqZ in Ht.
    destruct (r !! t) as [q|] eqn:E; [|by apply elem_of_nil in Hc].
    apply elem_of_queue_patches in Hc as (i & p & Hq & Hc).
    exists t, q, i, p. split; [lia|done].
  - intros (t & q & i & p & Ht & Hr & Hq & Hc). exists t.
    split; [|apply elem_of_seqZ; lia]. rewrite Hr.
    apply elem_of_queue_patches. by exists i, p.
Qed.

Lemma elem_of_ready_lane r n c :
  Ok c ∈ ready_lane r n
  ↔ c = SetTitle 3 "Ready Queue" ∨ c = SetYlabel 3 "Queue Position"
    ∨ c = SetYticks 3 (seqZ 0 (max_queue_depth r))
    ∨ (∃ labels,
         res_map (fun i => py_str (i + 1)) (seqZ 0 (max_queue_depth r))
         = Ok labels
         ∧ c = SetYticklabels 3 labels)
    ∨ (∃ top, int_sub_float (max_queue_depth r) float_0_5 = Ok top
         ∧ c = SetYlim 3 (SFopp float_0_5) top)
    ∨ c = InvertYaxis 3
    ∨ Ok c ∈ queue_lane r n.
Proof.
  unfold ready_lane. cbv zeta.
  rewrite elem_of_app, !elem_of_cons, elem_of_nil.
  rewrite !(eq_comm (Ok c)), !bind_Ok. naive_solver.
Qed.

Lemma elem_of_style_axis max_t ax c :
  Ok c ∈ style_axis max_t ax
  ↔ c = SetXticks ax (max_t + 1) ∨ c = Grid ax "x" ∨ c = Grid ax "y"
    ∨ c = SetXlim ax max_t ∨ c = TickParams ax.
Proof.
  unfold style_axis. rewrite !elem_of_cons, elem_of_nil. naive_solver.
Qed.

Lemma elem_of_finish out c :
  Ok c ∈ finish out
  ↔ c = Xlabel "Time (Ticks)" ∨ c = TightLayout ∨ c = Savefig out
    ∨ c = Print (String.append "Gantt chart saved to " out).
Proof.
  unfold finish. rewrite !elem_of_cons, elem_of_nil. naive_solver.
Qed.

(** Where a call of [draw_gantt] comes from, when there is a PID to
    draw. *)
Lemma elem_of_script (d : Data) (out : string) c :
  pids d ≠ ∅ →
  Ok c ∈ script d out
  ↔ c = Subplots [Z.of_nat (length (sorted_pids d));
                  Z.of_nat (length (sorted_pids d));
                  max_queue_depth (ready d)]
    ∨ Ok c ∈ style_axis (max_time d + 2) 1
    ∨ Ok c ∈ style_axis (max_time d + 2) 2
    ∨ Ok c ∈ style_axis (max_time d + 2) 3
    ∨ Ok c ∈ pid_lane 1 "CPU Usage" (sorted_pids d) (cpu d)
    ∨ Ok c ∈ pid_lane 2 "I/O Usage" (sorted_pids d) (io d)
    ∨ Ok c ∈ ready_lane (ready d) (max_time d + 2)
    ∨ Ok c ∈ finish out.
Proof.
  intros Hne. rewrite script_nonempty by done.
  rewrite !elem_of_app, list_elem_of_singleton. naive_solver.
Qed.

Ltac script_origin H :=
  apply elem_of_script in H; [|done];
  rewrite !elem_of_style_axis, !elem_of_pid_lane, elem_of_ready_lane,
    elem_of_queue_lane, elem_of_finish in H.

Lemma foldl_min_spec (l : list Z) : ∀ x,
  foldl Z.min x l ∈ x :: l ∧ ∀ y, y ∈ x :: l → foldl Z.min x l ≤ y.
Proof.
  induction l as [|a l IH]; intros x; simpl.
  - split; [by left|]. intros y ->%list_elem_of_singleton. lia.
  - destruct (IH (Z.min x a)) as [Hin Hle]. split.
    + apply elem_of_cons in Hin as [Hin|Hin]; [|by do 2 right].
      rewrite Hin. destruct (Z.min_spec x a) as [[_ ->]|[_ ->]];
        [by left|right; by left].
    + intros y Hy. apply elem_of_cons in Hy as [->|Hy].
      * specialize (Hle (Z.min x a) ltac:(by left)). lia.
      * apply elem_of_cons in Hy as [->|Hy].
        -- specialize (Hle (Z.min x a) ltac:(by left)). lia.
        -- apply Hle. by right.
Qed.

Lemma foldl_max_spec (l : list Z) : ∀ x,
  foldl Z.max x l ∈ x :: l ∧ ∀ y, y ∈ x :: l → y ≤ foldl Z.max x l.
Proof.
  induction l as [|a l IH]; intros x; simpl.
  - split; [by left|]. intros y ->%list_elem_of_singleton. lia.
  - destruct (IH (Z.max x a)) as [Hin Hle]. split.
    + apply elem_of_cons in Hin as [Hin|Hin]; [|by do 2 right].
      rewrite Hin. destruct (Z.max_spec x a) as [[_ ->]|[_ ->]];
        [right; by left|by left].
    + intros y Hy. apply elem_of_cons in Hy as [->|Hy].
      * specialize (Hle (Z.max x a) ltac:(by left)). lia.
      * apply elem_of_cons in Hy as [->|Hy].
        -- specialize (Hle (Z.max x a) ltac:(by left)). lia.
        -- apply Hle. by right.
Qed.

Lemma py_min_spec ps lo :
  py_min ps = Ok lo → lo ∈ ps ∧ ∀ p, p ∈ ps → lo ≤ p.
Proof.
  destruct ps as [|x ps]; [done|]. intros [= <-]. apply foldl_min_spec.
Qed.

Lemma py_max_spec ps hi :
  py_max ps = Ok hi → hi ∈ ps ∧ ∀ p, p ∈ ps → p ≤ hi.
Proof.
  destruct ps as [|x ps]; [done|]. intros [= <-]. apply foldl_max_spec.
Qed.

Lemma sorted_pids_spec (d : Data) :
  StronglySorted Z.le (sorted_pids d) ∧ NoDup (sorted_pids d).
Proof.
  unfold sorted_pids. split.
  - apply StronglySorted_merge_sort; apply _.
  - rewrite merge_sort_Permutation. apply NoDup_elements.
Qed.

Lemma max_queue_depth_spec (r : gmap Z (list Z)) :
  1 ≤ max_queue_depth r
  ∧ (∀ t q, r !! t = Some q → Z.of_nat (length q) ≤ max_queue_depth r)
  ∧ (max_queue_depth r = 1
     ∨ ∃ t q, r !! t = Some q ∧ max_queue_depth r = Z.of_nat (length q)).
Proof.
  unfold max_queue_depth.
  set (f := fun (_ : Z) (q : list Z) acc => Z.max acc (Z.of_nat (length q))).
  assert (H : 0 ≤ map_fold f 0 r
    ∧ (∀ t q, r !! t = Some q → Z.of_nat (length q) ≤ map_fold f 0 r)
    ∧ (map_fold f 0 r = 0
       ∨ ∃ t q, r !! t = Some q ∧ map_fold f 0 r = Z.of_nat (length q))).
  { apply (map_fold_weak_ind (fun acc m => 0 ≤ acc
      ∧ (∀ t q, m !! t = Some q → Z.of_nat (length q) ≤ acc)
      ∧ (acc = 0 ∨ ∃ t q, m !! t = Some q ∧ acc = Z.of_nat (length q)))).
    - split; [done|]. split; [|by left]. intros t q Hq.
      by rewrite lookup_empty in Hq.
    - intros i x m acc Hi (H0 & Hle & Htight). unfold f. split; [lia|]. split.
      + intros t q Hq. destruct (decide (i = t)) as [->|Hne].
        * rewrite lookup_insert_eq in Hq. injection Hq as ->. lia.
        * rewrite lookup_insert_ne in Hq by done. specialize (Hle t q Hq). lia.
      + destruct (Z.max_spec acc (Z.of_nat (length x))) as [[_ ->]|[_ ->]].
        * right. exists i, x. by rewrite lookup_insert_eq.
        * destruct Htight as [->|(t & q & Hq & ->)]; [by left|].
          right. exists t, q. split; [|done].
          rewrite lookup_insert_ne; [done|]. intros ->. congruence. }
  destruct H as (H0 & Hle & Htight). split; [lia|]. split.
  - intros t q Hq. specialize (Hle t q Hq). lia.
  - destruct Htight as [->|(t & q & Hq & Heq)]; [by left|].
    destruct (Z.max_spec (map_fold f 0 r) 1) as [[_ ->]|[Hge ->]]; [by left|].
    right. by exists t, q.
Qed.

(** The calls [draw_gantt] makes are calls of its statements, and a run
    that returns has gone through every statement. *)
Lemma draw_gantt_calls lib d out :
  (∀ c, c ∈ fst (draw_gantt lib d out) → Ok c ∈ script d out)
  ∧ (snd (draw_gantt lib d out) = Ok tt →
     ∀ s, s ∈ script d out → ∃ c, s = Ok c ∧ c ∈ fst (draw_gantt lib d out)).
Proof.
  unfold draw_gantt. split.
  - intros c. apply run_sound.
  - intros H s Hs. rewrite (run_complete _ _ H) in Hs.
    apply list_elem_of_fmap in Hs as (c & -> & Hc). by exists c.
Qed.

Lemma script_empty_call d out c :
  pids d = ∅ → Ok c ∈ script d out → c = Print "No processes found.".
Proof.
  intros He. rewrite (script_empty _ _ He).
  by intros [= ->]%list_elem_of_singleton.
Qed.

Lemma script_parts d out s :
  pids d ≠ ∅ →
  s ∈ pid_lane 1 "CPU Usage" (sorted_pids d) (cpu d)
  ∨ s ∈ pid_lane 2 "I/O Usage" (sorted_pids d) (io d)
  ∨ s ∈ ready_lane (ready d) (max_time d + 2)
  ∨ s ∈ finish out →
  s ∈ script d out.
Proof.
  intros Hne H. rewrite script_nonempty by done.
  rewrite !elem_of_app. naive_solver.
Qed.

Lemma box_in_lane_patches ax ps m p l t s :
  p ∈ ps → m !! p = Some l → t ∈ l → s ∈ box ax t p →
  s ∈ lane_patches ax ps m.
Proof.
  intros Hp Hl Ht Hs. unfold lane_patches. apply list_elem_of_bind.
  exists p. split; [|done]. rewrite Hl. apply list_elem_of_bind. by exists t.
Qed.

Lemma entry_in_queue_lane r n t q i p s :
  0 ≤ t < n → r !! t = Some q → q !! i = Some p →
  s ∈ box 3 t (Z.of_nat i)
      ++ [(x <~ int_add_float t float_0_5 ;;
           sp <~ py_str p ;;
           Ok (Text x (Z.of_nat i) (String "P" sp)))] →
  s ∈ queue_lane r n.
Proof.
  intros Ht Hr Hq Hs. unfold queue_lane. apply list_elem_of_bind.
  exists t. split; [|apply elem_of_seqZ; lia]. rewrite Hr.
  unfold queue_patches. apply list_elem_of_join. eexists. split; [exact Hs|].
  apply elem_of_lookup_imap. by exists i, p.
Qed.

(** The box of a recorded tick is drawn by a run that returns. *)
Lemma lane_box_drawn lib d out (ax : nat) (m : gmap Z (list Z)) title p l t :
  (ax = 1%nat ∧ m = cpu d ∧ title = "CPU Usage"
   ∨ ax = 2%nat ∧ m = io d ∧ title = "I/O Usage") →
  snd (draw_gantt lib d out) = Ok tt →
  p ∈ pids d → m !! p = Some l → t ∈ l →
  ∃ y, int_sub_float p float_0_4 = Ok y
    ∧ AddPatch ax t y ∈ fst (draw_gantt lib d out).
Proof.
  intros Hax Hr Hp Hl Ht.
  assert (Hne : pids d ≠ ∅) by (intros He; rewrite He in Hp; set_solver).
  destruct (draw_gantt_calls lib d out) as [_ Hall].
  destruct (Hall Hr (y <~ int_sub_float p float_0_4 ;; Ok (AddPatch ax t y)))
    as (c & Hc & Hin).
  - apply script_parts; [done|].
    assert (Hlane : (y <~ int_sub_float p float_0_4 ;; Ok (AddPatch ax t y))
                      ∈ pid_lane ax title (sorted_pids d) m).
    { unfold pid_lane. apply elem_of_app. right.
      apply (box_in_lane_patches _ _ _ p l t); [|done|done|].
      - by apply elem_of_sorted_pids.
      - unfold box. right. by left. }
    destruct Hax as [(-> & -> & ->)|(-> & -> & ->)]; [by left|right; by left].
  - apply bind_Ok in Hc as (y & Hy & [= <-]). by exists y.
Qed.

(** * The chart *)

(** X16: whatever the plotting library does, every call of [add_patch] on
    the CPU lane (resp. the I/O lane) is for a box at a tick [t] that [cpu]
    (resp. [io]) records for a PID [p] of [pids], at the height
    [float(p) - 0.4]; a list recorded for a PID outside [pids] is never
    drawn.  When [draw_gantt] returns, every such tick has its box. *)
Theorem draw_gantt_lane_patches (lib : library) (d : Data) (out : string) :
  let (effs, r) := draw_gantt lib d out in
  (∀ t y, AddPatch 1 t y ∈ effs →
     ∃ p l, p ∈ pids d ∧ cpu d !! p = Some l ∧ t ∈ l
       ∧ int_sub_float p float_0_4 = Ok y)
  ∧ (∀ t y, AddPatch 2 t y ∈ effs →
       ∃ p l, p ∈ pids d ∧ io d !! p = Some l ∧ t ∈ l
         ∧ int_sub_float p float_0_4 = Ok y)
  ∧ (r = Ok tt →
     (∀ p l t, p ∈ pids d → cpu d !! p = Some l → t ∈ l →
        ∃ y, int_sub_float p float_0_4 = Ok y ∧ AddPatch 1 t y ∈ effs)
     ∧ (∀ p l t, p ∈ pids d → io d !! p = Some l → t ∈ l →
          ∃ y, int_sub_float p float_0_4 = Ok y ∧ AddPatch 2 t y ∈ effs)).
Proof.
  pose proof (draw_gantt_calls lib d out) as [Hs _].
  pose proof (lane_box_drawn lib d out 1 (cpu d) "CPU Usage") as Hcpu.
  pose proof (lane_box_drawn lib d out 2 (io d) "I/O Usage") as Hio.
  destruct (draw_gantt lib d out) as [effs r]. simpl in Hs, Hcpu, Hio.
  split; [|split].
  - intros t y Hc%Hs. destruct (decide (pids d = ∅)) as [He|Hne].
    { by apply script_empty_call in Hc. }
    script_origin Hc. setoid_rewrite elem_of_sorted_pids in Hc. naive_solver.
  - intros t y Hc%Hs. destruct (decide (pids d = ∅)) as [He|Hne].
    { by apply script_empty_call in Hc. }
    script_origin Hc. setoid_rewrite elem_of_sorted_pids in Hc. naive_solver.
  - intros Hr. split; intros p l t; [apply Hcpu|apply Hio]; auto.
Qed.

(** X17: whatever the plotting library does, every call of [text] on the
    ready-queue lane at position [i] is made with a PID to draw, for a tick
    [t] with [0 ≤ t < max_time + 2] whose queue [ready[t]] holds a PID [p]
    at index [i]; the label stands at [float(t) + 0.5] and reads [P]
    followed by [str(p)].  Every call of [add_patch] on that lane is
    likewise for such a tick and index.  When [draw_gantt] returns, every
    such entry has its box and its label; queues at ticks outside the range
    are not drawn. *)
Theorem draw_gantt_queue_patches (lib : library) (d : Data) (out : string) :
  let (effs, r) := draw_gantt lib d out in
  (∀ x i s, Text x (Z.of_nat i) s ∈ effs →
     pids d ≠ ∅
     ∧ ∃ t q p sp, 0 ≤ t < max_time d + 2
         ∧ ready d !! t = Some q ∧ q !! i = Some p
         ∧ int_add_float t float_0_5 = Ok x
         ∧ py_str p = Ok sp ∧ s = String "P" sp)
  ∧ (∀ t y, AddPatch 3 t y ∈ effs →
       pids d ≠ ∅ ∧ 0 ≤ t < max_time d + 2
       ∧ ∃ q i, ready d !! t = Some q ∧ (i < length q)%nat
           ∧ int_sub_float (Z.of_nat i) float_0_4 = Ok y)
  ∧ (r = Ok tt → pids d ≠ ∅ →
     ∀ t q i p, 0 ≤ t < max_time d + 2 →
       ready d !! t = Some q → q !! i = Some p →
       ∃ x y sp, int_add_float t float_0_5 = Ok x
         ∧ int_sub_float (Z.of_nat i) float_0_4 = Ok y
         ∧ py_str p = Ok sp
         ∧ AddPatch 3 t y ∈ effs
         ∧ Text x (Z.of_nat i) (String "P" sp) ∈ effs).
Proof.
  pose proof (draw_gantt_calls lib d out) as [Hs Hall].
  destruct (draw_gantt lib d out) as [effs r]. simpl in Hs, Hall.
  split; [|split].
  - intros x i s Hc%Hs. destruct (decide (pids d = ∅)) as [He|Hne].
    { by apply script_empty_call in Hc. }
    split; [done|]. script_origin Hc.
    repeat destruct Hc as [Hc|Hc]; try discriminate;
      try (destruct Hc as (? & ? & ? & ? & ? & ? & ? & ? & [=]); fail);
      try (destruct Hc as (? & ? & ? & ? & ? & ? & ? & ? & [[=]|[=]]); fail);
      try (destruct Hc as (? & ? & [=]); fail).
    destruct Hc as (t & q & i' & p & Ht & Hq & Hi & Hc).
    destruct Hc as [(y & _ & [[=]|[=]])|(x' & sp & Hx & Hsp & [= -> Hii ->])].
    apply Nat2Z.inj in Hii as ->. by exists t, q, p, sp.
  - intros t y Hc%Hs. destruct (decide (pids d = ∅)) as [He|Hne].
    { by apply script_empty_call in Hc. }
    split; [done|]. script_origin Hc.
    repeat destruct Hc as [Hc|Hc]; try discriminate;
      try (destruct Hc as (? & ? & ? & ? & ? & ? & ? & ? & [=]); fail);
      try (destruct Hc as (? & ? & ? & ? & ? & ? & ? & ? & [[=]|[=]]); fail);
      try (destruct Hc as (? & ? & [=]); fail).
    destruct Hc as (t' & q & i & p & Ht & Hq & Hi & Hc).
    destruct Hc as [(y' & Hy & [[=]|[= -> ->]])|(x' & sp & _ & _ & [=])].
    split; [done|]. exists q, i. split; [done|].
    split; [by eapply lookup_lt_Some|done].
  - intros Hr Hne t q i p Ht Hq Hi.
    assert (Hin : ∀ s,
      s ∈ box 3 t (Z.of_nat i)
          ++ [(x <~ int_add_float t float_0_5 ;;
               sp <~ py_str p ;;
               Ok (Text x (Z.of_nat i) (String "P" sp)))] →
      ∃ c, s = Ok c ∧ c ∈ effs).
    { intros s Hs'. apply (Hall Hr). apply script_parts; [done|].
      right. right. left. unfold ready_lane. cbv zeta. apply elem_of_app. right.
      by apply (entry_in_queue_lane _ _ t q i p). }
    destruct (Hin (y <~ int_sub_float (Z.of_nat i) float_0_4 ;;
                   Ok (AddPatch 3 t y))) as (c1 & H1 & Hc1).
    { apply elem_of_app. left. unfold box. right. by left. }
    destruct (Hin (x <~ int_add_float t float_0_5 ;;
                   sp <~ py_str p ;;
                   Ok (Text x (Z.of_nat i) (String "P" sp)))) as (c2 & H2 & Hc2).
    { apply elem_of_app. right. by left. }
    apply bind_Ok in H1 as (y & Hy & [= <-]).
    apply bind_Ok in H2 as (x & Hx & H2).
    apply bind_Ok in H2 as (sp & Hsp & [= <-]).
    by exists x, y, sp.
Qed.

(** X18: when there is a PID to draw, the first call made, whatever the
    plotting library does, is [plt.subplots] with height ratios
    [n, n, depth] where [n] is the number of known PIDs and [depth] is at
    least 1 and at least the length of every queue of [ready], and is 1 or
    the length of one of them. *)
Theorem draw_gantt_height_ratios (lib : library) (d : Data) (out : string) :
  pids d ≠ ∅ →
  ∃ depth rest,
    fst (draw_gantt lib d out)
      = Subplots [Z.of_nat (size (pids d)); Z.of_nat (size (pids d)); depth]
          :: rest
    ∧ 1 ≤ depth
    ∧ (∀ t q, ready d !! t = Some q → Z.of_nat (length q) ≤ depth)
    ∧ (depth = 1 ∨ ∃ t q, ready d !! t = Some q ∧ depth = Z.of_nat (length q)).
Proof.
  intros Hne. unfold draw_gantt. rewrite script_nonempty by done.
  assert (length (sorted_pids d) = size (pids d)) as ->.
  { unfold sorted_pids. by rewrite merge_sort_Permutation. }
  change ([?s] ++ ?l) with (s :: l).
  match goal with
  | |- context [run lib (Ok ?c :: ?steps) []] =>
      destruct (run_first lib c steps) as [rest ->]
  end.
  exists (max_queue_depth (ready d)), rest. split; [done|].
  apply max_queue_depth_spec.
Qed.

Lemma draw_gantt_height_ratios_witness :
  ∃ depth rest,
    fst (draw_gantt (fun _ _ => None) (mkData ∅ ∅ {[0 := [4; 5]]} ∅ 0 {[4; 5]})
           output_path)
      = Subplots [Z.of_nat (size ({[4; 5]} : gset Z));
                  Z.of_nat (size ({[4; 5]} : gset Z)); depth] :: rest
    ∧ 1 ≤ depth
    ∧ (∀ t q, ({[0 := [4; 5]]} : gmap Z (list Z)) !! t = Some q
         → Z.of_nat (length q) ≤ depth)
    ∧ (depth = 1
       ∨ ∃ t q, ({[0 := [4; 5]]} : gmap Z (list Z)) !! t = Some q
           ∧ depth = Z.of_nat (length q)).
Proof.
  assert (Hne : pids (mkData ∅ ∅ {[0 := [4; 5]]} ∅ 0 {[4; 5]}) ≠ ∅).
  { simpl. intros H. apply (f_equal (fun s => bool_decide (4 ∈ s))) in H.
    vm_compute in H. discriminate. }
  exact (draw_gantt_height_ratios (fun _ _ => None) _ output_path Hne).
Defined.

(** X19: whatever the plotting library does, every call of [set_yticks]
    on the CPU and I/O lanes passes the known PIDs in increasing order, each
    once, and every call of [set_ylim] on them passes [float(lo) - 0.5] and
    [float(hi) + 0.5] for the smallest and the largest known PID.  When
    [draw_gantt] returns with a PID to draw, both lanes got these ticks and
    the same limits. *)
Theorem draw_gantt_pid_axis (lib : library) (d : Data) (out : string) :
  let (effs, r) := draw_gantt lib d out in
  (∀ ax ps, SetYticks ax ps ∈ effs → ax ≠ 3%nat →
     StronglySorted Z.le ps ∧ NoDup ps ∧ ∀ p, p ∈ ps ↔ p ∈ pids d)
  ∧ (∀ ax bottom top, SetYlim ax bottom top ∈ effs → ax ≠ 3%nat →
       ∃ lo hi, lo ∈ pids d ∧ hi ∈ pids d
         ∧ (∀ p, p ∈ pids d → lo ≤ p ≤ hi)
         ∧ int_sub_float lo float_0_5 = Ok bottom
         ∧ int_add_float hi float_0_5 = Ok top)
  ∧ (r = Ok tt → pids d ≠ ∅ →
     ∃ ps bottom top,
       SetYticks 1 ps ∈ effs ∧ SetYticks 2 ps ∈ effs
       ∧ SetYlim 1 bottom top ∈ effs ∧ SetYlim 2 bottom top ∈ effs).
Proof.
  pose proof (draw_gantt_calls lib d out) as [Hs Hall].
  destruct (draw_gantt lib d out) as [effs r]. simpl in Hs, Hall.
  split; [|split].
  - intros ax ps Hc%Hs Hax. destruct (decide (pids d = ∅)) as [He|Hne].
    { by apply script_empty_call in Hc. }
    assert (ps = sorted_pids d) as ->.
    { script_origin Hc. naive_solver. }
    destruct (sorted_pids_spec d) as [Hsorted Hnd].
    split; [done|]. split; [done|]. apply elem_of_sorted_pids.
  - intros ax bottom top Hc%Hs Hax. destruct (decide (pids d = ∅)) as [He|Hne].
    { by apply script_empty_call in Hc. }
    assert (∃ lo hi, py_min (sorted_pids d) = Ok lo
              ∧ py_max (sorted_pids d) = Ok hi
              ∧ int_sub_float lo float_0_5 = Ok bottom
              ∧ int_add_float hi float_0_5 = Ok top)
      as (lo & hi & Hlo & Hhi & Hb & Ht).
    { script_origin Hc. naive_solver. }
    apply py_min_spec in Hlo as [Hlo_in Hlo].
    apply py_max_spec in Hhi as [Hhi_in Hhi].
    exists lo, hi. rewrite <- !elem_of_sorted_pids.
    split; [done|]. split; [done|]. split; [|done].
    intros p Hp%elem_of_sorted_pids.
    split; [by apply Hlo|by apply Hhi].
  - intros Hr Hne.
    assert (Hlane : ∀ ax title m,
      (ax = 1%nat ∧ title = "CPU Usage" ∧ m = cpu d
       ∨ ax = 2%nat ∧ title = "I/O Usage" ∧ m = io d) →
      ∀ s, s ∈ pid_lane ax title (sorted_pids d) m → ∃ c, s = Ok c ∧ c ∈ effs).
    { intros ax title m Hax s Hs'. apply (Hall Hr). apply script_parts; [done|].
      destruct Hax as [(-> & -> & ->)|(-> & -> & ->)]; [by left|right; by left]. }
    destruct (Hlane 1%nat "CPU Usage" (cpu d) ltac:(by left)
                (lo <~ py_min (sorted_pids d) ;;
                 bottom <~ int_sub_float lo float_0_5 ;;
                 hi <~ py_max (sorted_pids d) ;;
                 top <~ int_add_float hi float_0_5 ;;
                 Ok (SetYlim 1 bottom top))) as (c1 & H1 & Hc1).
    { unfold pid_lane. apply elem_of_app. left. do 3 right. by left. }
    symmetry in H1. symmetry in H1.
    apply bind_Ok in H1 as (lo & Hlo & H1).
    apply bind_Ok in H1 as (bottom & Hb & H1).
    apply bind_Ok in H1 as (hi & Hhi & H1).
    apply bind_Ok in H1 as (top & Ht & [= <-]).
    destruct (Hlane 2%nat "I/O Usage" (io d) ltac:(by right)
                (lo <~ py_min (sorted_pids d) ;;
                 bottom <~ int_sub_float lo float_0_5 ;;
                 hi <~ py_max (sorted_pids d) ;;
                 top <~ int_add_float hi float_0_5 ;;
                 Ok (SetYlim 2 bottom top))) as (c2 & H2 & Hc2).
    { unfold pid_lane. apply elem_of_app. left. do 3 right. by left. }
    rewrite Hlo in H2. simpl in H2. rewrite Hb in H2. simpl in H2.
    rewrite Hhi in H2. simpl in H2. rewrite Ht in H2. simpl in H2.
    injection H2 as <-.
    destruct (Hlane 1%nat "CPU Usage" (cpu d) ltac:(by left)
                (Ok (SetYticks 1 (sorted_pids d)))) as (c3 & [= <-] & Hc3).
    { unfold pid_lane. apply elem_of_app. left. do 2 right. by left. }
    destruct (Hlane 2%nat "I/O Usage" (io d) ltac:(by right)
                (Ok (SetYticks 2 (sorted_pids d)))) as (c4 & [= <-] & Hc4).
    { unfold pid_lane. apply elem_of_app. left. do 2 right. by left. }
    by exists (sorted_pids d), bottom, top.
Qed.

(** The statements before the last four make no [savefig] and no
    [print]. *)
Lemma script_split d out :
  pids d ≠ ∅ →
  ∃ body, script d out = body ++ finish out
    ∧ ∀ c, Ok c ∈ body → (∀ f, c ≠ Savefig f) ∧ (∀ m, c ≠ Print m).
Proof.
  intros Hne. rewrite script_nonempty by done.
  exists ([Ok (Subplots [Z.of_nat (length (sorted_pids d));
                         Z.of_nat (length (sorted_pids d));
                         max_queue_depth (ready d)])]
          ++ style_axis (max_time d + 2) 1 ++ style_axis (max_time d + 2) 2
          ++ style_axis (max_time d + 2) 3
          ++ pid_lane 1 "CPU Usage" (sorted_pids d) (cpu d)
          ++ pid_lane 2 "I/O Usage" (sorted_pids d) (io d)
          ++ ready_lane (ready d) (max_time d + 2)).
  split; [by rewrite <- !app_assoc|].
  intros c Hc.
  rewrite !elem_of_app, list_elem_of_singleton, !elem_of_style_axis,
    !elem_of_pid_lane, elem_of_ready_lane, elem_of_queue_lane in Hc.
  naive_solver.
Qed.

(** How a run of [draw_gantt] with a PID to draw can end: before
    [savefig] is reached, in [savefig], or normally after the
    confirmation. *)
Lemma draw_gantt_shape lib d out :
  pids d ≠ ∅ →
  ∃ body, script d out = body ++ finish out
    ∧ (∀ c, Ok c ∈ body → (∀ f, c ≠ Savefig f) ∧ (∀ m, c ≠ Print m))
    ∧ ((∃ e, snd (draw_gantt lib d out) = Raise e
          ∧ ∀ c, c ∈ fst (draw_gantt lib d out) →
              Ok c ∈ body ++ [Ok (Xlabel "Time (Ticks)"); Ok TightLayout])
       ∨ (∃ h e, Ok <$> h = body
            ∧ draw_gantt lib d out
              = (h ++ [Xlabel "Time (Ticks)"; TightLayout; Savefig out],
                 Raise e))
       ∨ (∃ h, Ok <$> h = body
            ∧ draw_gantt lib d out
              = (h ++ [Xlabel "Time (Ticks)"; TightLayout; Savefig out;
                       Print (String.append "Gantt chart saved to " out)],
                 Ok tt))).
Proof.
  intros Hne. destruct (script_split d out Hne) as (body & Hscript & Hbody).
  exists body. split; [done|]. split; [done|].
  unfold draw_gantt. rewrite Hscript. unfold finish.
  change (body ++ [Ok (Xlabel "Time (Ticks)"); Ok TightLayout;
                   Ok (Savefig out);
                   Ok (Print (String.append "Gantt chart saved to " out))])
    with (body ++ [Ok (Xlabel "Time (Ticks)"); Ok TightLayout]
               ++ [Ok (Savefig out);
                   Ok (Print (String.append "Gantt chart saved to " out))]).
  rewrite app_assoc, run_app.
  match goal with
  | |- context [run lib ?s []] =>
      pose proof (run_sound lib s) as Hsound;
      pose proof (run_complete lib s) as Hcomplete;
      destruct (run lib s []) as [h' [[]|e]]
  end; simpl in Hsound, Hcomplete.
  - right. specialize (Hcomplete eq_refl). symmetry in Hcomplete.
    apply fmap_app_inv in Hcomplete as (h & hx & Hh & Hx & ->).
    destruct hx as [|x1 [|x2 [|x3 hx]]]; try discriminate.
    injection Hx as <- <-.
    simpl.
    match goal with
    | |- context [lib ?h0 (Savefig out)] =>
        destruct (lib h0 (Savefig out)) as [e|]
    end.
    + left. exists h, e. split; [done|]. by rewrite <- !app_assoc.
    + right. exists h. split; [done|]. by rewrite <- !app_assoc.
  - left. exists e. done.
Qed.

Lemma call_in_body (h : list effect) (body : list step) (c : effect) :
  Ok <$> h = body → c ∈ h → Ok c ∈ body.
Proof. intros <- Hc. by apply list_elem_of_fmap_2. Qed.

Lemma lookup_app_tail {A} (P : A → Prop) (h tl : list A) i x :
  (∀ c, c ∈ h → ¬ P c) → P x → (h ++ tl) !! i = Some x →
  ∃ k, i = (length h + k)%nat ∧ tl !! k = Some x.
Proof.
  intros Hh Hx Hi. apply lookup_app_Some in Hi as [Hi|[Hle Hi]].
  - apply list_elem_of_lookup_2 in Hi. by apply Hh in Hi.
  - exists (i - length h)%nat. split; [lia|done].
Qed.

(** X20: [draw_gantt] prints "No processes found." and does nothing else
    when no PID is known.  Otherwise, whatever the plotting library does,
    it calls [savefig] at most once and only with the path it was given,
    and it prints the confirmation only after [savefig] returned, as its
    last action.  A run that returns ends with the axis label, the layout
    call, the [savefig] and the confirmation; nothing before them writes a
    file or prints. *)
Theorem draw_gantt_writes_once (lib : library) (d : Data) (out : string) :
  let (effs, r) := draw_gantt lib d out in
  (pids d = ∅ → effs = [Print "No processes found."] ∧ r = Ok tt)
  ∧ (∀ f, Savefig f ∈ effs → f = out ∧ pids d ≠ ∅)
  ∧ (∀ i j f g,
       effs !! i = Some (Savefig f) → effs !! j = Some (Savefig g) → i = j)
  ∧ (∀ m, Print m ∈ effs →
       r = Ok tt
       ∧ (pids d = ∅ ∧ m = "No processes found."
          ∨ pids d ≠ ∅
            ∧ m = String.append "Gantt chart saved to " out
            ∧ Savefig out ∈ effs))
  ∧ (r = Ok tt → pids d ≠ ∅ →
     ∃ body,
       effs = body ++ [Xlabel "Time (Ticks)"; TightLayout; Savefig out;
                       Print (String.append "Gantt chart saved to " out)]
       ∧ ∀ c, c ∈ body → (∀ f, c ≠ Savefig f) ∧ (∀ m, c ≠ Print m)).
Proof.
  destruct (decide (pids d = ∅)) as [He|Hne].
  { rewrite (draw_gantt_empty _ _ _ He).
    split; [done|]. split; [by intros f [=]%list_elem_of_singleton|].
    split; [by intros [|i] j f g [=]|].
    split; [|done]. intros m [= ->]%list_elem_of_singleton.
    split; [done|]. by left. }
  destruct (draw_gantt_shape lib d out Hne)
    as (body & _ & Hbody & [(e & Hr & Hin)|[(h & e & Hh & E)|(h & Hh & E)]]).
  - destruct (draw_gantt lib d out) as [effs r]. simpl in Hr, Hin. subst r.
    assert (Hno : ∀ c, c ∈ effs → (∀ f, c ≠ Savefig f) ∧ (∀ m, c ≠ Print m)).
    { intros c Hc%Hin. apply elem_of_app in Hc as [Hc|Hc]; [by apply Hbody|].
      rewrite !elem_of_cons, elem_of_nil in Hc. naive_solver. }
    split; [done|]. split; [intros f Hf%Hno; naive_solver|].
    split; [intros i j f g Hi%list_elem_of_lookup_2%Hno; naive_solver|].
    split; [intros m Hm%Hno; naive_solver|done].
  - rewrite E.
    assert (Hno : ∀ c, c ∈ h → ¬ (∃ f, c = Savefig f) ∧ (∀ m, c ≠ Print m)).
    { intros c Hc%(call_in_body _ _ _ Hh)%Hbody. naive_solver. }
    split; [done|]. split; [|split; [|split; [|done]]].
    + intros f Hf. split; [|done]. apply elem_of_app in Hf as [Hf%Hno|Hf].
      * naive_solver.
      * rewrite !elem_of_cons, elem_of_nil in Hf. naive_solver.
    + intros i j f g Hi Hj.
      apply (lookup_app_tail (fun c => ∃ f, c = Savefig f)) in Hi
        as (k & -> & Hk); [|intros c Hc%Hno; tauto|by exists f].
      apply (lookup_app_tail (fun c => ∃ f, c = Savefig f)) in Hj
        as (k' & -> & Hk'); [|intros c Hc%Hno; tauto|by exists g].
      destruct k as [|[|[|k]]]; try discriminate.
      by destruct k' as [|[|[|k']]].
    + intros m Hm. apply elem_of_app in Hm as [Hm%Hno|Hm].
      * naive_solver.
      * rewrite !elem_of_cons, elem_of_nil in Hm. naive_solver.
  - rewrite E.
    assert (Hno : ∀ c, c ∈ h → ¬ (∃ f, c = Savefig f) ∧ (∀ m, c ≠ Print m)).
    { intros c Hc%(call_in_body _ _ _ Hh)%Hbody. naive_solver. }
    assert (Hsave : Savefig out
              ∈ h ++ [Xlabel "Time (Ticks)"; TightLayout; Savefig out;
                      Print (String.append "Gantt chart saved to " out)]).
    { apply elem_of_app. right. do 2 right. by left. }
    split; [done|]. split; [|split; [|split]].
    + intros f Hf. split; [|done]. apply elem_of_app in Hf as [Hf%Hno|Hf].
      * naive_solver.
      * rewrite !elem_of_cons, elem_of_nil in Hf. naive_solver.
    + intros i j f g Hi Hj.
      apply (lookup_app_tail (fun c => ∃ f, c = Savefig f)) in Hi
        as (k & -> & Hk); [|intros c Hc%Hno; tauto|by exists f].
      apply (lookup_app_tail (fun c => ∃ f, c = Savefig f)) in Hj
        as (k' & -> & Hk'); [|intros c Hc%Hno; tauto|by exists g].
      destruct k as [|[|[|[|k]]]]; try discriminate.
      by destruct k' as [|[|[|[|k']]]].
    + intros m Hm. split; [done|]. right. split; [done|]. split; [|done].
      apply elem_of_app in Hm as [Hm%Hno|Hm].
      * naive_solver.
      * rewrite !elem_of_cons, elem_of_nil in Hm. naive_solver.
    + intros _ _. exists h. split; [done|].
      intros c Hc%Hno. naive_solver.
Qed.

(** X21: for a log within the digit limit, whatever the plotting library
    does, drawing the parsed trace leaves the ready-queue lane empty (no
    box, no label) and gives it the height ratio 1; when [draw_gantt]
    returns, every tick recorded in [cpu] and [io] has its box.  A log
    beyond the digit limit is not drawn: parsing it raises
    [ValueError]. *)
Theorem parse_then_draw (lib : library) (text out : string) :
  if within_limit (lines_of text) then
    ∃ d, parse_output text = Ok d
      ∧ let (effs, r) := draw_gantt lib d out in
        (∀ t y, AddPatch 3 t y ∉ effs)
        ∧ (∀ x i s, Text x i s ∉ effs)
        ∧ (∀ rs, Subplots rs ∈ effs → rs !! 2%nat = Some 1)
        ∧ (r = Ok tt →
           (∀ p l t, cpu d !! p = Some l → t ∈ l →
              ∃ y, int_sub_float p float_0_4 = Ok y ∧ AddPatch 1 t y ∈ effs)
           ∧ (∀ p l t, io d !! p = Some l → t ∈ l →
                ∃ y, int_sub_float p float_0_4 = Ok y
                  ∧ AddPatch 2 t y ∈ effs))
  else parse_output text = Raise ValueError.
Proof.
  rewrite parse_output_cases. destruct (within_limit (lines_of text)); [|done].
  pose proof (fold_lines_init_Inv (lines_of text)) as HI.
  set (st := fold_lines init (lines_of text)) in *.
  exists (data st). split; [done|].
  assert (Hready : ready (data st) = ∅) by apply HI.
  pose proof (draw_gantt_calls lib (data st) out) as [Hs _].
  pose proof (lane_box_drawn lib (data st) out 1 (cpu (data st)) "CPU Usage")
    as Hcpu.
  pose proof (lane_box_drawn lib (data st) out 2 (io (data st)) "I/O Usage")
    as Hio.
  destruct (draw_gantt lib (data st) out) as [effs r]. simpl in Hs, Hcpu, Hio.
  split; [|split; [|split; [|split]]].
  - intros t y Hc%Hs. destruct (decide (pids (data st) = ∅)) as [He|Hne].
    { by apply script_empty_call in Hc. }
    script_origin Hc. rewrite Hready in Hc.
    setoid_rewrite lookup_empty in Hc. naive_solver.
  - intros x i s Hc%Hs. destruct (decide (pids (data st) = ∅)) as [He|Hne].
    { by apply script_empty_call in Hc. }
    script_origin Hc. rewrite Hready in Hc.
    setoid_rewrite lookup_empty in Hc. naive_solver.
  - intros rs Hc%Hs. destruct (decide (pids (data st) = ∅)) as [He|Hne].
    { by apply script_empty_call in Hc. }
    assert (max_queue_depth (ready (data st)) = 1) as Hd.
    { rewrite Hready. unfold max_queue_depth. by rewrite map_fold_empty. }
    script_origin Hc. rewrite Hd in Hc.
    destruct Hc as [[= ->]|Hc]; [done|]. naive_solver.
  - intros p l t Hl Ht. apply (Hcpu p l t); auto.
    apply (inv_cpu_pids _ HI). by rewrite Hl.
  - intros p l t Hl Ht. apply (Hio p l t); auto.
    apply (inv_io_pids _ HI). by rewrite Hl.
Qed.

(** * The entry point *)

Lemma draw_gantt_savefig lib (d : Data) (out f : string) :
  Savefig f ∈ fst (draw_gantt lib d out) → f = out.
Proof.
  intros Hc. apply (proj1 (draw_gantt_calls lib d out)) in Hc.
  destruct (decide (pids d = ∅)) as [He|Hne].
  { by apply script_empty_call in Hc. }
  script_origin Hc. naive_solver.
Qed.

(** X22: how a run of the script ends.  With fewer than two arguments it
    prints the usage line and exits with status 1, the only exit status it
    ever sets.  When the file named by the first argument cannot be opened
    it stops there with nothing printed or drawn.  When the log holds a
    number beyond the digit limit it stops with [ValueError], nothing
    printed or drawn.  Otherwise it makes the calls of [draw_gantt] on the
    parsed trace and the default path, and returns if [draw_gantt] returns;
    an exception of [draw_gantt] is not caught.  The only file it ever
    writes is [gantt_diagram/schedule.png]. *)
Theorem main_outcomes (lib : library) (argv : list string)
    (fs : string → option string) :
  let (effs, st) := main lib argv fs in
  st ≠ IndexFailed
  ∧ (∀ code, st = SysExit code ↔ (length argv < 2)%nat ∧ code = 1)
  ∧ ((length argv < 2)%nat → effs = [Print usage])
  ∧ (st = OpenFailed ↔ ∃ f, argv !! 1%nat = Some f ∧ fs f = None)
  ∧ (st = OpenFailed → effs = [])
  ∧ (∀ f text, argv !! 1%nat = Some f → fs f = Some text →
       if within_limit (lines_of text)
       then ∃ d, parse_output text = Ok d
              ∧ effs = fst (draw_gantt lib d output_path)
              ∧ (st = Returned ↔ snd (draw_gantt lib d output_path) = Ok tt)
              ∧ (∀ e, st = Uncaught e
                      ↔ snd (draw_gantt lib d output_path) = Raise e)
       else effs = [] ∧ st = Uncaught ValueError)
  ∧ (st = Returned →
     ∃ f text, argv !! 1%nat = Some f ∧ fs f = Some text
       ∧ within_limit (lines_of text) = true)
  ∧ (∀ f, Savefig f ∈ effs → f = output_path).
Proof.
  unfold main. case_bool_decide as Hlen.
  - assert (Hno : ∀ f, argv !! 1%nat ≠ Some f).
    { intros f Hf. apply lookup_lt_Some in Hf. lia. }
    split; [done|]. split; [intros code; split; [by intros [= <-]|by intros [_ ->]]|].
    split; [done|]. split; [split; [done|intros (f & Hf & _); by apply Hno in Hf]|].
    split; [done|]. split; [intros f text Hf; by apply Hno in Hf|].
    split; [done|]. by intros f [=]%list_elem_of_singleton.
  - destruct (argv !! 1%nat) as [f|] eqn:Hf.
    2: { apply lookup_ge_None in Hf. lia. }
    destruct (fs f) as [text|] eqn:Hfs.
    + rewrite parse_output_cases.
      destruct (within_limit (lines_of text)) eqn:Hlim.
      * pose proof (draw_gantt_savefig lib
                      (data (fold_lines init (lines_of text))) output_path)
          as Hsave.
        destruct (draw_gantt lib (data (fold_lines init (lines_of text)))
                    output_path) as [effs [[]|e]] eqn:E; simpl in Hsave.
        -- split; [done|]. split; [intros code; split; [done|intros [? _]; lia]|].
           split; [intros; lia|].
           split; [split; [done|intros (f' & [= <-] & Hnone); congruence]|].
           split; [done|]. split.
           { intros f' text' [= <-] Htext. rewrite Hfs in Htext.
             injection Htext as <-. rewrite Hlim, parse_output_cases, Hlim.
             eexists. split; [done|]. rewrite E. simpl. split; [done|].
             split; [done|]. intros e. split; done. }
           split; [intros _; by exists f, text|]. done.
        -- split; [done|]. split; [intros code; split; [done|intros [? _]; lia]|].
           split; [intros; lia|].
           split; [split; [done|intros (f' & [= <-] & Hnone); congruence]|].
           split; [done|]. split.
           { intros f' text' [= <-] Htext. rewrite Hfs in Htext.
             injection Htext as <-. rewrite Hlim, parse_output_cases, Hlim.
             eexists. split; [done|]. rewrite E. simpl. split; [done|].
             split; [done|]. intros e'. split; by intros [= ->]. }
           split; [done|]. done.
      * split; [done|]. split; [intros code; split; [done|intros [? _]; lia]|].
        split; [intros; lia|].
        split; [split; [done|intros (f' & [= <-] & Hnone); congruence]|].
        split; [done|]. split.
        { intros f' text' [= <-] Htext. rewrite Hfs in Htext.
          injection Htext as <-. by rewrite Hlim. }
        split; [done|]. by intros f' Hin%elem_of_nil.
    + split; [done|]. split; [intros code; split; [done|intros [? _]; lia]|].
      split; [intros; lia|].
      split; [split; [intros _; by exists f|done]|].
      split; [done|]. split.
      { intros f' text' [= <-] Htext. congruence. }
      split; [done|]. by intros f' Hin%elem_of_nil.
Qed.

(** * Floating-point rows and limits *)

Lemma run_quiet_prefix (lib : library) cs e rest : ∀ h,
  (∀ h' c, lib h' c = None) →
  run lib ((Ok <$> cs) ++ Raise e :: rest) h = (h ++ cs, Raise e).
Proof.
  induction cs as [|c cs IH]; intros h Hlib; simpl.
  - by rewrite app_nil_r.
  - assert (raises lib h c = None) as ->.
    { unfold raises. destruct c; auto. }
    rewrite IH by done. by rewrite <- app_assoc.
Qed.

Lemma ylim_step_overflow d p :
  p ∈ pids d → (∀ q, q ∈ pids d → p ≤ q) →
  to_float p = Raise OverflowError →
  ∀ ax, (lo <~ py_min (sorted_pids d) ;;
         bottom <~ int_sub_float lo float_0_5 ;;
         hi <~ py_max (sorted_pids d) ;;
         top <~ int_add_float hi float_0_5 ;;
         Ok (SetYlim ax bottom top)) = Raise OverflowError.
Proof.
  intros Hp Hmin Hov ax.
  destruct (py_min (sorted_pids d)) as [lo|e] eqn:Hlo.
  - apply py_min_spec in Hlo as [Hin Hle].
    assert (lo = p) as ->.
    { apply elem_of_sorted_pids in Hin. apply Hmin in Hin.
      specialize (Hle p ltac:(by apply elem_of_sorted_pids)). lia. }
    simpl. unfold int_sub_float. by rewrite Hov.
  - destruct (sorted_pids d) eqn:E; [|done].
    apply elem_of_sorted_pids in Hp. rewrite E in Hp. by apply elem_of_nil in Hp.
Qed.

(** X26: when the smallest known PID is too large for a float,
    [draw_gantt] does not return and writes no file, whatever the plotting
    library does: computing the lower limit of the PID axis raises
    [OverflowError].  With a library that raises nothing, that is the
    exception [draw_gantt] ends with. *)
Theorem draw_gantt_overflow (lib : library) (d : Data) (out : string)
    (p : Z) :
  p ∈ pids d → (∀ q, q ∈ pids d → p ≤ q) →
  to_float p = Raise OverflowError →
  ∃ e, snd (draw_gantt lib d out) = Raise e
    ∧ (∀ f, Savefig f ∉ fst (draw_gantt lib d out))
    ∧ ((∀ h c, lib h c = None) → e = OverflowError).
Proof.
  intros Hp Hmin Hov.
  assert (Hne : pids d ≠ ∅) by (intros He; rewrite He in Hp; set_solver).
  pose proof (ylim_step_overflow d p Hp Hmin Hov 1%nat) as Hstep.
  assert (Hin : Raise OverflowError
                  ∈ pid_lane 1 "CPU Usage" (sorted_pids d) (cpu d)).
  { unfold pid_lane. rewrite Hstep. apply elem_of_app. left.
    do 3 right. by left. }
  assert (Hquiet : (∀ h c, lib h c = None) →
            snd (draw_gantt lib d out) = Raise OverflowError).
  { intros Hlib. unfold draw_gantt.
    assert (script d out
      = (Ok <$> [
          Subplots [Z.of_nat (length (sorted_pids d));
                    Z.of_nat (length (sorted_pids d));
                    max_queue_depth (ready d)];
          SetXticks 1 (max_time d + 2 + 1); Grid 1 "x"; Grid 1 "y";
          SetXlim 1 (max_time d + 2); TickParams 1;
          SetXticks 2 (max_time d + 2 + 1); Grid 2 "x"; Grid 2 "y";
          SetXlim 2 (max_time d + 2); TickParams 2;
          SetXticks 3 (max_time d + 2 + 1); Grid 3 "x"; Grid 3 "y";
          SetXlim 3 (max_time d + 2); TickParams 3;
          SetTitle 1 "CPU Usage"; SetYlabel 1 "PID";
          SetYticks 1 (sorted_pids d)])
        ++ Raise OverflowError
           :: (Ok (InvertYaxis 1) :: lane_patches 1 (sorted_pids d) (cpu d))
              ++ pid_lane 2 "I/O Usage" (sorted_pids d) (io d)
              ++ ready_lane (ready d) (max_time d + 2) ++ finish out) as ->.
    { rewrite script_nonempty by done.
      unfold style_axis, pid_lane at 1. rewrite Hstep. reflexivity. }
    by rewrite run_quiet_prefix. }
  destruct (draw_gantt_shape lib d out Hne)
    as (body & Hscript & Hbody & Hcases).
  assert (Hraise : Raise OverflowError ∈ body).
  { assert (Hs : Raise OverflowError ∈ script d out).
    { apply script_parts; [done|]. by left. }
    rewrite Hscript in Hs. apply elem_of_app in Hs as [Hs|Hs]; [done|].
    unfold finish in Hs. rewrite !elem_of_cons, elem_of_nil in Hs.
    naive_solver. }
  assert (Hnot : ∀ h : list effect, Ok <$> h ≠ body).
  { intros h <-. by apply list_elem_of_fmap in Hraise as (c & [=] & _). }
  destruct Hcases as [(e & Hr & Hcalls)|[(h & e & Hh & _)|(h & Hh & _)]];
    [|by apply Hnot in Hh..].
  exists e. split; [done|]. split.
  - intros f Hf%Hcalls. apply elem_of_app in Hf as [Hf|Hf].
    + apply Hbody in Hf. naive_solver.
    + rewrite !elem_of_cons, elem_of_nil in Hf. naive_solver.
  - intros Hlib. rewrite (Hquiet Hlib) in Hr. by injection Hr as <-.
Qed.

Lemma draw_gantt_overflow_witness :
  ∃ e, snd (draw_gantt (fun _ _ => None) (mkData ∅ ∅ ∅ ∅ 0 {[2 ^ 1024]})
              output_path) = Raise e
    ∧ (∀ f, Savefig f
            ∉ fst (draw_gantt (fun _ _ => None)
                     (mkData ∅ ∅ ∅ ∅ 0 {[2 ^ 1024]}) output_path))
    ∧ ((∀ (h : list effect) (c : effect), (fun _ _ => None) h c = @None exn)
       → e = OverflowError).
Proof.
  apply (draw_gantt_overflow (fun _ _ => None)
           (mkData ∅ ∅ ∅ ∅ 0 {[2 ^ 1024]}) output_path (2 ^ 1024)).
  - simpl. by apply elem_of_singleton.
  - simpl. intros q ->%elem_of_singleton. reflexivity.
  - vm_compute. reflexivity.
Defined.


